(** * Pong (src/pong.py): a shallow embedding of the simulation core

    Numbers.  Python [int]s are [Z].  Python [float]s (paddle timers,
    ball velocity, [dt]) are rationals [Q] with exact arithmetic: every
    finite float is a rational, and the rounding, infinities and NaN of
    IEEE arithmetic are not part of this model.  Equality of floats is
    [Qeq] ([==]).

    Effects.  The only exception the simulation code can raise on
    rationals is [ZeroDivisionError] (from [/] and [%]); fallible code
    lives in the [result] monad below.  The random draws and the clock
    readings a frame consumes are explicit inputs.  [math.cos] and
    [math.sin] are parameters of the ball model.

    Machine limits.  A second set of operations, the [_checked] ones,
    adds the two limits of the platform to the same code: a
    [pygame.Rect] coordinate is a C [int], and assigning a value outside
    its range raises [TypeError]; [int()] of an infinite float raises
    [OverflowError] (of a NaN, [ValueError]). *)

From Stdlib Require Import ZArith QArith Qround Qabs Bool List Lia Lqa.
Import ListNotations.

Open Scope Z_scope.

(** ** Configuration (pong.py, lines 9-31) *)

Definition SCREEN_WIDTH : Z := 800.
Definition SCREEN_HEIGHT : Z := 600.
Definition PADDLE_WIDTH : Z := 12.
Definition PADDLE_HEIGHT : Z := 100.
Definition PADDLE_MARGIN : Z := 30.
Definition PADDLE_SPEED : Z := 420.
Definition AI_MAX_SPEED : Z := 390.
Definition BALL_SIZE : Z := 14.
Definition BALL_SPEED : Z := 360.
Definition BALL_SPEED_INCREMENT : Z := 18.
Definition BALL_SPEED_MAX : Z := 680.
Definition SCORE_TO_WIN : Z := 10.
Definition SERVE_DELAY : Z := 800.
Definition AI_TRACK_DAMPING : Q := 22 # 100.
Definition AI_LOOKAHEAD_FACTOR : Q := 55 # 100.

(** ** Exceptions *)

Inductive PyError : Set :=
  ZeroDivisionError | TypeError | OverflowError | ValueError.

Inductive result (A : Type) : Type :=
| Ok (a : A)
| Raise (e : PyError).
Arguments Ok {A} a.
Arguments Raise {A} e.

Definition bind {A B : Type} (m : result A) (k : A -> result B) : result B :=
  match m with
  | Ok a => k a
  | Raise e => Raise e
  end.

Notation "x <- m ;; k" := (bind m (fun x => k))
  (at level 61, m at next level, right associativity).

(** ** Python arithmetic on floats *)

Definition Qltb (a b : Q) : bool := negb (Qle_bool b a).

(** [a / b]: raises on a zero divisor. *)
Definition py_truediv (a b : Q) : result Q :=
  if Qeq_bool b 0 then Raise ZeroDivisionError else Ok (a / b)%Q.

(** [a % b]: floored modulo, the result has the sign of [b]. *)
Definition py_mod (a b : Q) : result Q :=
  if Qeq_bool b 0 then Raise ZeroDivisionError
  else Ok (a - b * inject_Z (Qfloor (a / b)))%Q.

(** [int(q)]: truncation toward zero. *)
Definition py_int (q : Q) : Z := Z.quot (Qnum q) (Z.pos (Qden q)).

(** [max(a, b)] and [min(a, b)] keep the first argument on ties. *)
Definition py_max (a b : Q) : Q := if Qltb a b then b else a.
Definition py_min (a b : Q) : Q := if Qltb b a then b else a.

(** [math.copysign(x, s)]: the magnitude of [x] with the sign of [s]. *)
Definition copysign (x : Q) (s : Z) : Q :=
  if s <? 0 then (- Qabs x)%Q else Qabs x.

(** ** Geometry utilities (lines 199-212) *)

Definition clamp (val lo hi : Q) : Q := py_max lo (py_min hi val).

Definition reflect_off_bounds (y min_y max_y : Q) : result Q :=
  let span := (max_y - min_y)%Q in
  if Qle_bool span 0 then Ok (clamp y min_y max_y)
  else
    t <- py_mod (y - min_y)%Q (2 * span)%Q ;;
    let t' := if Qltb span t then (2 * span - t)%Q else t in
    Ok (min_y + t')%Q.

(** ** pygame.Rect: integer position and size, with virtual attributes *)

Record Rect : Set := mkRect { rect_x : Z; rect_y : Z; rect_w : Z; rect_h : Z }.

Module R.
Definition left (r : Rect) : Z := rect_x r.
Definition right (r : Rect) : Z := rect_x r + rect_w r.
Definition top (r : Rect) : Z := rect_y r.
Definition bottom (r : Rect) : Z := rect_y r + rect_h r.
Definition centery (r : Rect) : Z := rect_y r + rect_h r / 2.

Definition set_x (v : Z) (r : Rect) : Rect :=
  mkRect v (rect_y r) (rect_w r) (rect_h r).
Definition set_y (v : Z) (r : Rect) : Rect :=
  mkRect (rect_x r) v (rect_w r) (rect_h r).
Definition set_left (v : Z) (r : Rect) : Rect := set_x v r.
Definition set_right (v : Z) (r : Rect) : Rect := set_x (v - rect_w r) r.
Definition set_top (v : Z) (r : Rect) : Rect := set_y v r.
Definition set_bottom (v : Z) (r : Rect) : Rect := set_y (v - rect_h r) r.
Definition set_centery (v : Z) (r : Rect) : Rect :=
  set_y (v - rect_h r / 2) r.
Definition set_center (c : Z * Z) (r : Rect) : Rect :=
  mkRect (fst c - rect_w r / 2) (snd c - rect_h r / 2) (rect_w r) (rect_h r).

(** [a.colliderect(b)]: the open interiors overlap. *)
Definition colliderect (a b : Rect) : bool :=
  (rect_x a <? rect_x b + rect_w b) && (rect_y a <? rect_y b + rect_h b)
  && (rect_x b <? rect_x a + rect_w a) && (rect_y b <? rect_y a + rect_h a).
End R.

(** ** Game objects *)

Record Paddle : Set := mkPaddle {
  p_rect : Rect;
  is_ai : bool;
  p_speed : Z;
  _reaction_timer : Q;
  _next_reaction_at : Q;
  _target_y : Q;
  _aim_error : Q
}.

Record Ball : Set := mkBall {
  b_rect : Rect;
  velocity_x : Q;
  velocity_y : Q;
  b_speed : Z;
  _serve_dir : Z;
  _serve_time : Z
}.

(** The random draws one frame may consume, in the order of the code:
    the reaction delay [random.uniform(80, 160)], the aim error
    magnitude [random.uniform(10, 48)] and its sign
    [random.choice([-1.0, 1.0])] (true for -1.0), the serve angle
    [random.uniform(-0.35, 0.35)] and the bounce jitter
    [random.uniform(-8.0, 8.0)]. *)
Record Draws : Set := mkDraws {
  reaction_delay : Q;
  aim_magnitude : Q;
  aim_negative : bool;
  serve_angle : Q;
  bounce_jitter : Q
}.

Definition with_p_rect (r : Rect) (p : Paddle) : Paddle :=
  mkPaddle r (is_ai p) (p_speed p) (_reaction_timer p) (_next_reaction_at p)
           (_target_y p) (_aim_error p).

Definition with_b_rect (r : Rect) (b : Ball) : Ball :=
  mkBall r (velocity_x b) (velocity_y b) (b_speed b) (_serve_dir b)
         (_serve_time b).

Definition with_velocity (vx vy : Q) (b : Ball) : Ball :=
  mkBall (b_rect b) vx vy (b_speed b) (_serve_dir b) (_serve_time b).

(** [velocity.length_squared()] *)
Definition length_squared (b : Ball) : Q :=
  (velocity_x b * velocity_x b + velocity_y b * velocity_y b)%Q.

(** ** Paddle (lines 40-110) *)

(** [Paddle.__init__]; the first reaction delay is a draw. *)
Definition Paddle_init (x y : Z) (ai : bool) (delay : Q) : Paddle :=
  let r := mkRect x y PADDLE_WIDTH PADDLE_HEIGHT in
  mkPaddle r ai (if ai then AI_MAX_SPEED else PADDLE_SPEED)
           0 delay (inject_Z (R.centery r)) 0.

Definition _rand_aim_error (d : Draws) : Q :=
  (aim_magnitude d * (if aim_negative d then - (1) else 1))%Q.

Definition Paddle_update_player (dt : Q) (up down : bool) (p : Paddle)
  : Paddle :=
  let dy := 0%Q in
  let dy := if up then (dy - inject_Z (p_speed p) * dt)%Q else dy in
  let dy := if down then (dy + inject_Z (p_speed p) * dt)%Q else dy in
  with_p_rect
    (R.set_centery
       (Z.max (PADDLE_HEIGHT / 2)
          (Z.min (SCREEN_HEIGHT - PADDLE_HEIGHT / 2)
             (py_int (inject_Z (R.centery (p_rect p)) + dy)%Q)))
       (p_rect p))
    p.

(** Lines 79-83: the conditional expression evaluates the division only
    when the horizontal velocity is not zero. *)
Definition time_to_reach (p : Paddle) (b : Ball) : result Q :=
  if negb (Qeq_bool (velocity_x b) 0)
  then py_truediv (inject_Z (R.left (p_rect p) - R.right (b_rect b)))
                  (velocity_x b)
  else Ok 0%Q.

(** Lines 71-99: the re-aiming branch, taken when the reaction timer
    fires.  Returns the new [(_aim_error, _target_y)]. *)
Definition retarget (p : Paddle) (b : Ball) (d : Draws) : result (Q * Q) :=
  if Qltb 0 (velocity_x b) then
    ttr <- time_to_reach p b ;;
    let predicted_y :=
      (inject_Z (R.centery (b_rect b))
       + velocity_y b * ttr * AI_LOOKAHEAD_FACTOR)%Q in
    predicted_y <- reflect_off_bounds predicted_y
                     (inject_Z (BALL_SIZE / 2))
                     (inject_Z (SCREEN_HEIGHT - BALL_SIZE / 2)) ;;
    ratio <- py_truediv (Qabs (velocity_x b)) (inject_Z BALL_SPEED_MAX) ;;
    let aim := (_rand_aim_error d * py_min 1 ratio)%Q in
    Ok (aim, (predicted_y + aim)%Q)
  else
    let aim := (_rand_aim_error d * (3 # 10))%Q in
    half <- py_truediv (inject_Z SCREEN_HEIGHT) 2 ;;
    Ok (aim, (half + aim)%Q).

(** Lines 101-110: damped, speed-limited tracking, then the bounds. *)
Definition track (dt : Q) (p : Paddle) : Paddle :=
  let desired := (_target_y p - inject_Z (R.centery (p_rect p)))%Q in
  let desired := (desired * AI_TRACK_DAMPING)%Q in
  let max_step := (inject_Z (p_speed p) * dt)%Q in
  let step := clamp desired (- max_step)%Q max_step in
  let r := R.set_centery
             (py_int (inject_Z (R.centery (p_rect p)) + step)%Q) (p_rect p) in
  let r := R.set_top (Z.max 0 (R.top r)) r in
  let r := R.set_bottom (Z.min SCREEN_HEIGHT (R.bottom r)) r in
  with_p_rect r p.

Definition Paddle_update_ai (dt : Q) (b : Ball) (d : Draws) (p : Paddle)
  : result Paddle :=
  let timer := (_reaction_timer p + dt * 1000)%Q in
  p1 <- (if Qle_bool (_next_reaction_at p) timer then
           at_ <- retarget p b d ;;
           Ok (mkPaddle (p_rect p) (is_ai p) (p_speed p) 0 (reaction_delay d)
                        (snd at_) (fst at_))
         else
           Ok (mkPaddle (p_rect p) (is_ai p) (p_speed p) timer
                        (_next_reaction_at p) (_target_y p) (_aim_error p))) ;;
  Ok (track dt p1).

(** ** Ball (lines 116-193) *)

(** [Ball.__init__]: the first serve direction is a draw of
    [random.choice([-1, 1])], [now] is [pygame.time.get_ticks()]. *)
Definition Ball_init (center : Z * Z) (serve_dir now : Z) : Ball :=
  mkBall (R.set_center center (mkRect 0 0 BALL_SIZE BALL_SIZE))
         0 0 BALL_SPEED serve_dir (now + SERVE_DELAY).

Definition Ball_reset (scorer_dir now : Z) (b : Ball) : Ball :=
  mkBall (R.set_center (SCREEN_WIDTH / 2, SCREEN_HEIGHT / 2) (b_rect b))
         0 0 BALL_SPEED scorer_dir (now + SERVE_DELAY).

(** Lines 147-149: the position advances by the truncated displacement. *)
Definition move (dt : Q) (b : Ball) : Ball :=
  let r := R.set_x (rect_x (b_rect b) + py_int (velocity_x b * dt)%Q)
                   (b_rect b) in
  let r := R.set_y (rect_y r + py_int (velocity_y b * dt)%Q) r in
  with_b_rect r b.

(** Lines 151-157: top and bottom walls. *)
Definition collide_walls (b : Ball) : Ball :=
  if R.top (b_rect b) <=? 0 then
    with_velocity (velocity_x b) (velocity_y b * - (1))%Q
      (with_b_rect (R.set_top 0 (b_rect b)) b)
  else if SCREEN_HEIGHT <=? R.bottom (b_rect b) then
    with_velocity (velocity_x b) (velocity_y b * - (1))%Q
      (with_b_rect (R.set_bottom SCREEN_HEIGHT (b_rect b)) b)
  else b.

(** Lines 165-170: the value [update] returns for a ball in flight. *)
Definition score_signal (b : Ball) : Z :=
  if R.right (b_rect b) <? 0 then 1
  else if SCREEN_WIDTH <? R.left (b_rect b) then -1
  else 0.

(** ** Match state and the score handling of [main] (lines 246-312) *)

Record Match : Set := mkMatch {
  left_paddle : Paddle;
  right_paddle : Paddle;
  ball : Ball;
  left_score : Z;
  right_score : Z;
  running : bool
}.

(** What one iteration reads from the platform: the frame time, the
    quit event, the two keys, the clock at the serve test and at a
    reset, and the random draws. *)
Record FrameIn : Set := mkFrameIn {
  dt : Q;
  quit : bool;
  key_w : bool;
  key_s : bool;
  ticks_update : Z;
  ticks_reset : Z;
  draws : Draws
}.

Definition initial (delay_l delay_r : Q) (serve_dir now : Z) : Match :=
  mkMatch
    (Paddle_init PADDLE_MARGIN (SCREEN_HEIGHT / 2 - PADDLE_HEIGHT / 2)
                 false delay_l)
    (Paddle_init (SCREEN_WIDTH - PADDLE_MARGIN - PADDLE_WIDTH)
                 (SCREEN_HEIGHT / 2 - PADDLE_HEIGHT / 2) true delay_r)
    (Ball_init (SCREEN_WIDTH / 2, SCREEN_HEIGHT / 2) serve_dir now)
    0 0 true.

(** Lines 279-285: the scores and the ball after a score signal. *)
Definition handle_score (score_dir now : Z) (b : Ball) (ls rs : Z)
  : Ball * Z * Z :=
  if negb (score_dir =? 0) then
    if 0 <? score_dir then (Ball_reset 1 now b, ls + 1, rs)
    else (Ball_reset (-1) now b, ls, rs + 1)
  else (b, ls, rs).

(** Lines 300-312: once a score has reached the threshold the ball's
    velocity is zeroed at the end of the frame. *)
Definition win_banner (b : Ball) (ls rs : Z) : Ball :=
  if (SCORE_TO_WIN <=? ls) || (SCORE_TO_WIN <=? rs)
  then with_velocity 0 0 b else b.

Section Libm.

(** [math.cos] and [math.sin], as functions on floats. *)
Variables cos sin : Q -> Q.

Definition Ball_serve_if_ready (now : Z) (angle : Q) (b : Ball) : Ball :=
  if Qeq_bool (length_squared b) 0 && (_serve_time b <=? now) then
    with_velocity
      (copysign (inject_Z (b_speed b) * cos angle)%Q (_serve_dir b))
      (inject_Z (b_speed b) * sin angle)%Q
      b
  else b.

Definition _bounce_off_paddle (paddle : Paddle) (is_left : bool)
           (jitter : Q) (b : Ball) : result Ball :=
  half <- py_truediv (inject_Z PADDLE_HEIGHT) 2 ;;
  offset <- py_truediv
              (inject_Z (R.centery (b_rect b) - R.centery (p_rect paddle)))
              half ;;
  let offset := clamp offset (- (1))%Q 1%Q in
  let angle := (offset * (9 # 10))%Q in
  let speed := Z.min BALL_SPEED_MAX (b_speed b + BALL_SPEED_INCREMENT) in
  let direction := if negb is_left then 1 else -1 in
  let vx := (inject_Z direction * inject_Z speed * cos angle)%Q in
  let vy := (inject_Z speed * sin angle)%Q in
  let r := if is_left
           then R.set_left (R.right (p_rect paddle)) (b_rect b)
           else R.set_right (R.left (p_rect paddle)) (b_rect b) in
  let vy := (vy + jitter)%Q in
  Ok (mkBall r vx vy speed (_serve_dir b) (_serve_time b)).

(** Lines 159-163. *)
Definition collide_paddles (left_paddle right_paddle : Paddle)
           (jitter : Q) (b : Ball) : result Ball :=
  if R.colliderect (b_rect b) (p_rect left_paddle)
     && Qltb (velocity_x b) 0
  then _bounce_off_paddle left_paddle true jitter b
  else if R.colliderect (b_rect b) (p_rect right_paddle)
          && Qltb 0 (velocity_x b)
  then _bounce_off_paddle right_paddle false jitter b
  else Ok b.

(** [Ball.update]: the new ball and the returned scoring direction. *)
Definition Ball_update (dt : Q) (left_paddle right_paddle : Paddle)
           (now : Z) (d : Draws) (b : Ball) : result (Ball * Z) :=
  let b := Ball_serve_if_ready now (serve_angle d) b in
  if Qeq_bool (length_squared b) 0 then Ok (b, 0)
  else
    let b := move dt b in
    let b := collide_walls b in
    b <- collide_paddles left_paddle right_paddle (bounce_jitter d) b ;;
    Ok (b, score_signal b).

(** One iteration of [while running] (lines 261-314). *)
Definition frame (s : Match) (i : FrameIn) : result Match :=
  let running := if quit i then false else running s in
  let lp := Paddle_update_player (dt i) (key_w i) (key_s i)
                                 (left_paddle s) in
  rp <- Paddle_update_ai (dt i) (ball s) (draws i) (right_paddle s) ;;
  bs <- Ball_update (dt i) lp rp (ticks_update i) (draws i) (ball s) ;;
  let '(b, ls, rs) :=
    handle_score (snd bs) (ticks_reset i) (fst bs)
                 (left_score s) (right_score s) in
  Ok (mkMatch lp rp (win_banner b ls rs) ls rs running).

Fixpoint run (s : Match) (inputs : list FrameIn) : result Match :=
  match inputs with
  | [] => Ok s
  | i :: rest =>
      if running s then s' <- frame s i ;; run s' rest else Ok s
  end.

End Libm.

(** A rational instance of the two library functions, their low-order
    Taylor polynomials, for running the model on concrete inputs. *)
Definition cos_taylor (a : Q) : Q := (1 - a * a / 2 + a * a * a * a / 24)%Q.
Definition sin_taylor (a : Q) : Q := (a - a * a * a / 6)%Q.

(** ** Machine limits and the checked operations *)

(** The range of the C [int] of a [pygame.Rect] coordinate, the largest
    finite double, and the frame time of [2^31 - 1] milliseconds, the
    largest a 32-bit millisecond count gives. *)
Definition INT_MIN : Z := - 2 ^ 31.
Definition INT_MAX : Z := 2 ^ 31 - 1.
Definition DBL_MAX : Q := inject_Z (2 ^ 1024 - 2 ^ 971).
Definition DT_MAX : Q := 2147483647 # 1000.

(** A value assigned to a [Rect] attribute must fit a C [int]. *)
Definition rect_int (v : Z) : result Z :=
  if (INT_MIN <=? v) && (v <=? INT_MAX) then Ok v else Raise TypeError.

(** [rect.attr = v] for the attribute whose setter is [set]. *)
Definition rect_assign (set : Z -> Rect -> Rect) (v : Z) (r : Rect)
  : result Rect :=
  v <- rect_int v ;; Ok (set v r).

(** [int(q)] where [q] is the exact value of a float expression: beyond
    the largest finite double the float is an infinity, of which [int]
    raises [OverflowError]. *)
Definition int_checked (q : Q) : result Z :=
  if Qle_bool (Qabs q) DBL_MAX then Ok (py_int q) else Raise OverflowError.

(** [Paddle.update_player] (lines 57-66).  When [speed * dt] is beyond
    the largest double it is an infinity: with one key [dy] is infinite
    and [int] raises [OverflowError]; with both keys [dy] is
    [-inf + inf], a NaN, and [int] raises [ValueError]. *)
Definition Paddle_update_player_checked (dt : Q) (up down : bool)
           (p : Paddle) : result Paddle :=
  if (up || down)
     && negb (Qle_bool (Qabs (inject_Z (p_speed p) * dt)) DBL_MAX)
  then Raise (if up && down then ValueError else OverflowError)
  else
    let dy := 0%Q in
    let dy := if up then (dy - inject_Z (p_speed p) * dt)%Q else dy in
    let dy := if down then (dy + inject_Z (p_speed p) * dt)%Q else dy in
    r <- rect_assign R.set_centery
           (Z.max (PADDLE_HEIGHT / 2)
              (Z.min (SCREEN_HEIGHT - PADDLE_HEIGHT / 2)
                 (py_int (inject_Z (R.centery (p_rect p)) + dy)%Q)))
           (p_rect p) ;;
    Ok (with_p_rect r p).

(** Lines 101-110 of [Paddle.update_ai]. *)
Definition track_checked (dt : Q) (p : Paddle) : result Paddle :=
  let desired := (_target_y p - inject_Z (R.centery (p_rect p)))%Q in
  let desired := (desired * AI_TRACK_DAMPING)%Q in
  let max_step := (inject_Z (p_speed p) * dt)%Q in
  let step := clamp desired (- max_step)%Q max_step in
  c <- int_checked (inject_Z (R.centery (p_rect p)) + step)%Q ;;
  r <- rect_assign R.set_centery c (p_rect p) ;;
  r <- rect_assign R.set_top (Z.max 0 (R.top r)) r ;;
  r <- rect_assign R.set_bottom (Z.min SCREEN_HEIGHT (R.bottom r)) r ;;
  Ok (with_p_rect r p).

Definition Paddle_update_ai_checked (dt : Q) (b : Ball) (d : Draws)
           (p : Paddle) : result Paddle :=
  let timer := (_reaction_timer p + dt * 1000)%Q in
  p1 <- (if Qle_bool (_next_reaction_at p) timer then
           at_ <- retarget p b d ;;
           Ok (mkPaddle (p_rect p) (is_ai p) (p_speed p) 0 (reaction_delay d)
                        (snd at_) (fst at_))
         else
           Ok (mkPaddle (p_rect p) (is_ai p) (p_speed p) timer
                        (_next_reaction_at p) (_target_y p) (_aim_error p))) ;;
  track_checked dt p1.

(** Lines 147-149 of [Ball.update]. *)
Definition move_checked (dt : Q) (b : Ball) : result Ball :=
  dx <- int_checked (velocity_x b * dt)%Q ;;
  r <- rect_assign R.set_x (rect_x (b_rect b) + dx) (b_rect b) ;;
  dy <- int_checked (velocity_y b * dt)%Q ;;
  r <- rect_assign R.set_y (rect_y r + dy) r ;;
  Ok (with_b_rect r b).

(** Lines 151-157 of [Ball.update]. *)
Definition collide_walls_checked (b : Ball) : result Ball :=
  if R.top (b_rect b) <=? 0 then
    r <- rect_assign R.set_top 0 (b_rect b) ;;
    Ok (with_velocity (velocity_x b) (velocity_y b * - (1))%Q
          (with_b_rect r b))
  else if SCREEN_HEIGHT <=? R.bottom (b_rect b) then
    r <- rect_assign R.set_bottom SCREEN_HEIGHT (b_rect b) ;;
    Ok (with_velocity (velocity_x b) (velocity_y b * - (1))%Q
          (with_b_rect r b))
  else Ok b.

Section LibmChecked.

(** [math.cos] and [math.sin], as functions on floats. *)
Variables cos sin : Q -> Q.

(** [Ball._bounce_off_paddle]: the nudge of lines 185-188 assigns the
    paddle's edge to the ball's. *)
Definition _bounce_off_paddle_checked (paddle : Paddle) (is_left : bool)
           (jitter : Q) (b : Ball) : result Ball :=
  b' <- _bounce_off_paddle cos sin paddle is_left jitter b ;;
  _ <- rect_int (if is_left then R.right (p_rect paddle)
                 else R.left (p_rect paddle)) ;;
  Ok b'.

Definition collide_paddles_checked (left_paddle right_paddle : Paddle)
           (jitter : Q) (b : Ball) : result Ball :=
  if R.colliderect (b_rect b) (p_rect left_paddle)
     && Qltb (velocity_x b) 0
  then _bounce_off_paddle_checked left_paddle true jitter b
  else if R.colliderect (b_rect b) (p_rect right_paddle)
          && Qltb 0 (velocity_x b)
  then _bounce_off_paddle_checked right_paddle false jitter b
  else Ok b.

Definition Ball_update_checked (dt : Q) (left_paddle right_paddle : Paddle)
           (now : Z) (d : Draws) (b : Ball) : result (Ball * Z) :=
  let b := Ball_serve_if_ready cos sin now (serve_angle d) b in
  if Qeq_bool (length_squared b) 0 then Ok (b, 0)
  else
    b <- move_checked dt b ;;
    b <- collide_walls_checked b ;;
    b <- collide_paddles_checked left_paddle right_paddle (bounce_jitter d) b ;;
    Ok (b, score_signal b).

(** One iteration of [while running]; [reset] assigns the constants
    [(SCREEN_WIDTH // 2, SCREEN_HEIGHT // 2)]. *)
Definition frame_checked (s : Match) (i : FrameIn) : result Match :=
  let running := if quit i then false else running s in
  lp <- Paddle_update_player_checked (dt i) (key_w i) (key_s i)
                                     (left_paddle s) ;;
  rp <- Paddle_update_ai_checked (dt i) (ball s) (draws i) (right_paddle s) ;;
  bs <- Ball_update_checked (dt i) lp rp (ticks_update i) (draws i) (ball s) ;;
  let '(b, ls, rs) :=
    handle_score (snd bs) (ticks_reset i) (fst bs)
                 (left_score s) (right_score s) in
  Ok (mkMatch lp rp (win_banner b ls rs) ls rs running).

Fixpoint run_checked (s : Match) (inputs : list FrameIn) : result Match :=
  match inputs with
  | [] => Ok s
  | i :: rest =>
      if running s then s' <- frame_checked s i ;; run_checked s' rest
      else Ok s
  end.

End LibmChecked.

(** The Taylor polynomials saturated to [[-1, 1]], a rational instance
    of the two library functions that keeps their range. *)
Definition cos_sat (a : Q) : Q := clamp (cos_taylor a) (- (1))%Q 1%Q.
Definition sin_sat (a : Q) : Q := clamp (sin_taylor a) (- (1))%Q 1%Q.

(** ** Predicates of the statements on the checked operations *)

(** [math.cos] and [math.sin] take their values in [[-1, 1]]. *)
Definition trig_bounded (cos sin : Q -> Q) : Prop :=
  forall a, (- (1) <= cos a <= 1)%Q /\ (- (1) <= sin a <= 1)%Q.

(** Neither velocity component exceeds the speed cap, plus the largest
    jitter for the vertical one. *)
Definition vel_ok (b : Ball) : Prop :=
  (- inject_Z BALL_SPEED_MAX <= velocity_x b <= inject_Z BALL_SPEED_MAX)%Q
  /\ (- inject_Z (BALL_SPEED_MAX + 8) <= velocity_y b
      <= inject_Z (BALL_SPEED_MAX + 8))%Q.

(** A paddle is on the screen, of the game's width, and not faster than
    the player's paddle. *)
Definition paddle_frame_ok (p : Paddle) : Prop :=
  0 <= rect_x (p_rect p) <= SCREEN_WIDTH
  /\ rect_w (p_rect p) = PADDLE_WIDTH
  /\ 0 <= p_speed p <= PADDLE_SPEED.

(** The jitter draw is in the range of [random.uniform(-8.0, 8.0)]. *)
Definition jitter_in_range (i : FrameIn) : Prop :=
  (- (8) <= bounce_jitter (draws i) <= 8)%Q.

(** The frame time is at most [DT_MAX] and the jitter draw is in its
    range. *)
Definition frame_in_range (i : FrameIn) : Prop :=
  (0 <= dt i <= DT_MAX)%Q /\ jitter_in_range i.

(** ** Predicates of the statements below *)

(** The vertical centre of a paddle is inside the screen by half a
    paddle height. *)
Definition paddle_in_bounds (p : Paddle) : Prop :=
  PADDLE_HEIGHT / 2 <= R.centery (p_rect p)
                    <= SCREEN_HEIGHT - PADDLE_HEIGHT / 2.

(** Both paddles have the game's height and are in bounds. *)
Definition paddles_ok (s : Match) : Prop :=
  rect_h (p_rect (left_paddle s)) = PADDLE_HEIGHT
  /\ rect_h (p_rect (right_paddle s)) = PADDLE_HEIGHT
  /\ paddle_in_bounds (left_paddle s)
  /\ paddle_in_bounds (right_paddle s).

(** ** Sample data *)

(** The two paddles as [main] creates them, a set of draws (serve angle
    0, no jitter) and the inputs of a 16 ms frame at clock reading 2000
    with no key pressed. *)
Definition paddle_l0 : Paddle :=
  Paddle_init PADDLE_MARGIN (SCREEN_HEIGHT / 2 - PADDLE_HEIGHT / 2) false 100.
Definition paddle_r0 : Paddle :=
  Paddle_init (SCREEN_WIDTH - PADDLE_MARGIN - PADDLE_WIDTH)
              (SCREEN_HEIGHT / 2 - PADDLE_HEIGHT / 2) true 100.
Definition draws0 : Draws := mkDraws 100 20 false 0 0.
Definition frame_in0 : FrameIn :=
  mkFrameIn (16 # 1000) false false false 2000 2000 draws0.

(** The AI paddle resting on the bottom bound, its target far below the
    screen. *)
Definition paddle_low : Paddle :=
  mkPaddle (mkRect 758 500 PADDLE_WIDTH PADDLE_HEIGHT) true AI_MAX_SPEED
           0 100 2000 0.

(** A slow ball: 30 px/s sideways and -45 px/s upward at 60 frames per
    second moves by half and three quarters of a pixel per frame. *)
Definition slow_ball : Ball :=
  mkBall (mkRect 393 293 BALL_SIZE BALL_SIZE) 30 (- (45)) BALL_SPEED 1 0.

(** The ball after seventeen paddle hits of a rally, overlapping the
    left paddle. *)
Definition ball_666 : Ball :=
  mkBall (mkRect 40 293 BALL_SIZE BALL_SIZE) (- (600)) 0 666 1 0.

(** A ball three pixels below the top wall moving up at 300 px/s. *)
Definition ball_near_top : Ball :=
  mkBall (mkRect 393 3 BALL_SIZE BALL_SIZE) 300 (- (300)) BALL_SPEED 1 0.

(** The ball of the scenario: its left edge one pixel past the right
    screen edge, moving right at 360 px/s. *)
Definition ball_past_right_edge : Ball :=
  mkBall (mkRect (SCREEN_WIDTH + 1) 293 BALL_SIZE BALL_SIZE)
         360 0 BALL_SPEED 1 0.

(** The mirrored ball: its right edge one pixel past the left screen
    edge, moving left. *)
Definition ball_past_left_edge : Ball :=
  mkBall (mkRect (- BALL_SIZE - 1) 293 BALL_SIZE BALL_SIZE)
         (- (360)) 0 BALL_SPEED 1 0.

(** The ball of [ball_past_left_edge] in the opening state of a match. *)
Definition match_left_exit : Match :=
  mkMatch paddle_l0 paddle_r0 ball_past_left_edge 0 0 true.

(** The state one frame after the left score has reached ten points:
    [reset] has just re-centred the ball at clock reading 1000, the
    banner code has zeroed its velocity. *)
Definition match_won : Match :=
  mkMatch paddle_l0 paddle_r0
          (win_banner (Ball_reset 1 1000 ball_past_left_edge) 10 3)
          10 3 true.

(** ** Predicates and sample data of the further properties *)

(** The ball has the game's size, lies between the top and bottom walls,
    overlaps or touches the screen horizontally, and its speed is between
    the base speed and the cap. *)
Definition ball_ok (b : Ball) : Prop :=
  rect_w (b_rect b) = BALL_SIZE
  /\ rect_h (b_rect b) = BALL_SIZE
  /\ 0 <= R.top (b_rect b) /\ R.bottom (b_rect b) <= SCREEN_HEIGHT
  /\ 0 <= R.right (b_rect b) /\ R.left (b_rect b) <= SCREEN_WIDTH
  /\ BALL_SPEED <= b_speed b <= BALL_SPEED_MAX.

(** Everything of a paddle but its vertical position and its AI state. *)
Definition same_paddle_frame (p q : Paddle) : Prop :=
  rect_x (p_rect p) = rect_x (p_rect q)
  /\ rect_w (p_rect p) = rect_w (p_rect q)
  /\ rect_h (p_rect p) = rect_h (p_rect q)
  /\ p_speed p = p_speed q
  /\ is_ai p = is_ai q.

(** A score has reached the threshold. *)
Definition won (s : Match) : Prop :=
  SCORE_TO_WIN <= left_score s \/ SCORE_TO_WIN <= right_score s.

(** The AI paddle 10 ms before its next reaction. *)
Definition paddle_about_to_react : Paddle :=
  mkPaddle (mkRect 758 250 PADDLE_WIDTH PADDLE_HEIGHT) true AI_MAX_SPEED
           90 100 300 0.

(** A ball waiting at the centre for a serve at clock reading 2800. *)
Definition ball_waiting : Ball :=
  mkBall (mkRect 393 293 BALL_SIZE BALL_SIZE) 0 0 BALL_SPEED 1 2800.

(** A ball overlapping the right paddle while moving right. *)
Definition ball_at_right_paddle : Ball :=
  mkBall (mkRect 750 293 BALL_SIZE BALL_SIZE) 360 0 BALL_SPEED 1 0.

(** A frame in which the quit event arrives. *)
Definition frame_in_quit : FrameIn :=
  mkFrameIn (16 # 1000) true false false 2000 2000 draws0.

(** The AI paddle at the centre with its target 100 pixels below. *)
Definition paddle_chasing : Paddle :=
  mkPaddle (mkRect 758 250 PADDLE_WIDTH PADDLE_HEIGHT) true AI_MAX_SPEED
           0 100 400 0.

(** A checked operation refines the unchecked one: it returns the same
    result, or stops on an exception that is not a division by zero. *)
Definition refines {A : Type} (c u : result A) : Prop :=
  c = u \/ exists e, c = Raise e /\ e <> ZeroDivisionError.

(** The invariant of the match loop: both paddles and the ball are as
    the game makes them. *)
Definition sim_ok (s : Match) : Prop :=
  paddles_ok s
  /\ paddle_frame_ok (left_paddle s) /\ paddle_frame_ok (right_paddle s)
  /\ ball_ok (ball s) /\ vel_ok (ball s).

(** The opening state of a match, and a frame that lasts ten million
    seconds read at clock reading 1000, when the first serve is due. *)
Definition match_start : Match := initial 100 100 1 0.
Definition frame_in_long : FrameIn :=
  mkFrameIn 10000000 false false false 1000 1000 draws0.

(** * Properties *)

(** ** Comparisons and Python arithmetic *)

Lemma Qltb_true (a b : Q) : Qltb a b = true <-> (a < b)%Q.
Proof.
  unfold Qltb. rewrite negb_true_iff.
  split; intro H.
  - apply Qnot_le_lt. intro Hle. apply Qle_bool_iff in Hle. congruence.
  - destruct (Qle_bool b a) eqn:E; [| reflexivity].
    apply Qle_bool_iff in E. exfalso. apply (Qlt_not_le _ _ H E).
Qed.

Lemma Qltb_false (a b : Q) : Qltb a b = false <-> (b <= a)%Q.
Proof.
  unfold Qltb. rewrite negb_false_iff. apply Qle_bool_iff.
Qed.

Lemma Qle_bool_false (a b : Q) : Qle_bool a b = false <-> (b < a)%Q.
Proof.
  rewrite <- Qltb_true. unfold Qltb.
  destruct (Qle_bool a b); simpl; intuition congruence.
Qed.

Lemma Qeq_bool_false (a b : Q) : Qeq_bool a b = false <-> ~ (a == b)%Q.
Proof.
  split.
  - intros H E. apply Qeq_bool_iff in E. congruence.
  - intro H. destruct (Qeq_bool a b) eqn:E; [| reflexivity].
    apply Qeq_bool_iff in E. contradiction.
Qed.

Lemma py_max_spec (a b : Q) :
  (a <= py_max a b /\ b <= py_max a b
   /\ (py_max a b == a \/ py_max a b == b))%Q.
Proof.
  unfold py_max. destruct (Qltb a b) eqn:E.
  - apply Qltb_true in E. repeat split; lra.
  - apply Qltb_false in E. repeat split; lra.
Qed.

Lemma py_min_spec (a b : Q) :
  (py_min a b <= a /\ py_min a b <= b
   /\ (py_min a b == a \/ py_min a b == b))%Q.
Proof.
  unfold py_min. destruct (Qltb b a) eqn:E.
  - apply Qltb_true in E. repeat split; lra.
  - apply Qltb_false in E. repeat split; lra.
Qed.

Lemma clamp_in_range (v lo hi : Q) :
  (lo <= hi -> lo <= clamp v lo hi <= hi)%Q.
Proof.
  intro H. unfold clamp.
  destruct (py_max_spec lo (py_min hi v)) as (H1 & H2 & H3).
  destruct (py_min_spec hi v) as (H4 & H5 & H6).
  split; [exact H1|]. destruct H3 as [H3 | H3]; lra.
Qed.

Lemma py_truediv_total (a b : Q) :
  ~ (b == 0)%Q -> py_truediv a b = Ok (a / b)%Q.
Proof.
  intro H. unfold py_truediv. apply Qeq_bool_false in H. now rewrite H.
Qed.

Lemma py_truediv_zero (a b : Q) :
  (b == 0)%Q -> py_truediv a b = Raise ZeroDivisionError.
Proof.
  intro H. unfold py_truediv. apply Qeq_bool_iff in H. now rewrite H.
Qed.

(** For a positive modulus the floored remainder lies in [[0, b)]. *)
Lemma py_mod_pos (a b : Q) :
  (0 < b)%Q ->
  exists t, py_mod a b = Ok t /\ (0 <= t < b)%Q
            /\ ((0 <= a < b)%Q -> (t == a)%Q).
Proof.
  intro Hb. unfold py_mod.
  assert (Hnz : ~ (b == 0)%Q) by lra.
  apply Qeq_bool_false in Hnz as Hz. rewrite Hz.
  eexists; split; [reflexivity|].
  pose proof (Qfloor_le (a / b)) as Hlo.
  pose proof (Qlt_floor (a / b)) as Hhi.
  rewrite inject_Z_plus in Hhi. change (inject_Z 1) with 1%Q in Hhi.
  assert (Ha : (a == b * (a / b))%Q) by (field; exact Hnz).
  set (q := (a / b)%Q) in *. set (f := inject_Z (Qfloor q)) in *.
  assert (H0 : (0 <= b * (q - f))%Q)
    by (apply Qmult_le_0_compat; lra).
  assert (H1 : (b * (q - f) < b * 1)%Q)
    by (apply Qmult_lt_l; lra).
  split; [split; lra|].
  intros [Ha0 Hab].
  assert (Hf : Qfloor q = 0%Z).
  { assert (Hq0 : (0 <= q)%Q).
    { unfold q. apply Qle_shift_div_l; lra. }
    assert (Hq1 : (q < 1)%Q).
    { unfold q. apply Qlt_shift_div_r; lra. }
    apply Z.le_antisymm.
    - assert (Hlt : (Qfloor q < 1)%Z); [| lia].
      rewrite Zlt_Qlt. change (inject_Z 1) with 1%Q. fold f. lra.
    - change 0%Z with (Qfloor 0). apply Qfloor_resp_le. exact Hq0. }
  unfold f. rewrite Hf. change (inject_Z 0) with 0%Q. lra.
Qed.

(** ** Geometry utilities *)

Lemma reflect_off_bounds_total (y lo hi : Q) :
  exists r, reflect_off_bounds y lo hi = Ok r.
Proof.
  unfold reflect_off_bounds.
  destruct (Qle_bool (hi - lo) 0) eqn:E; [eexists; reflexivity|].
  apply Qle_bool_false in E.
  destruct (py_mod_pos (y - lo) (2 * (hi - lo))) as (t & Ht & _);
    [lra|].
  rewrite Ht. simpl. eexists; reflexivity.
Qed.

(** C6.  For every rational [y] and bounds [lo < hi], the call
    [reflect_off_bounds(y, lo, hi)] returns a value in [[lo, hi]], and it
    returns [y] itself when [y] already lies in [[lo, hi]]. *)
Theorem reflect_off_bounds_in_range (y lo hi : Q) :
  (lo < hi)%Q ->
  exists r, reflect_off_bounds y lo hi = Ok r
            /\ (lo <= r <= hi)%Q
            /\ ((lo <= y <= hi)%Q -> (r == y)%Q).
Proof.
  intro Hlt. unfold reflect_off_bounds.
  assert (E : Qle_bool (hi - lo) 0 = false) by (apply Qle_bool_false; lra).
  rewrite E.
  destruct (py_mod_pos (y - lo) (2 * (hi - lo))) as (t & Ht & Hrange & Hid);
    [lra|].
  rewrite Ht. simpl. eexists; split; [reflexivity|].
  destruct (Qltb (hi - lo) t) eqn:Ef.
  - apply Qltb_true in Ef. split; [lra|].
    intro Hy. assert (Ht' : (t == y - lo)%Q) by (apply Hid; lra). lra.
  - apply Qltb_false in Ef. split; [lra|].
    intro Hy. assert (Ht' : (t == y - lo)%Q) by (apply Hid; lra). lra.
Qed.

Lemma reflect_off_bounds_in_range_witness :
  (7 < 593)%Q /\
  exists r, reflect_off_bounds 700 7 593 = Ok r
            /\ (7 <= r <= 593)%Q
            /\ ((7 <= 700 <= 593)%Q -> (r == 700)%Q).
Proof.
  split; [reflexivity | apply reflect_off_bounds_in_range; reflexivity].
Defined.

Example reflect_off_bounds_700 : reflect_off_bounds 700 7 593 = Ok 486%Q.
Proof. reflexivity. Qed.

Example reflect_off_bounds_below : reflect_off_bounds (-5) 7 593 = Ok 19%Q.
Proof. reflexivity. Qed.

(** ** Truncation *)

Lemma py_int_small (q : Q) : (Qabs q < 1)%Q -> py_int q = 0.
Proof.
  destruct q as [n d]. unfold py_int, Qlt. simpl. intro H.
  apply Z.quot_small_iff; lia.
Qed.

Lemma py_int_nonneg (q : Q) : (0 <= q)%Q -> py_int q = Qfloor q.
Proof.
  destruct q as [n d]. unfold py_int, Qle. simpl. intro H.
  apply Z.quot_div_nonneg; lia.
Qed.

Lemma py_int_opp (q : Q) : py_int (- q) = - py_int q.
Proof.
  destruct q as [n d]. unfold py_int. simpl. apply Z.quot_opp_l. lia.
Qed.

Lemma py_int_Qeq (p q : Q) : (p == q)%Q -> py_int p = py_int q.
Proof.
  intro E. destruct (Qlt_le_dec p 0) as [Hneg | Hpos].
  - assert (Hp : py_int p = - py_int (- p)) by (rewrite py_int_opp; lia).
    assert (Hq : py_int q = - py_int (- q)) by (rewrite py_int_opp; lia).
    rewrite Hp, Hq, !py_int_nonneg by lra.
    f_equal. apply Qfloor_comp. lra.
  - rewrite !py_int_nonneg by lra. apply Qfloor_comp. exact E.
Qed.

(** ** Ball: motion integration *)

Lemma move_iter_x (dt : Q) (n : nat) (b : Ball) :
  py_int (velocity_x b * dt) = 0 ->
  rect_x (b_rect (Nat.iter n (move dt) b)) = rect_x (b_rect b)
  /\ velocity_x (Nat.iter n (move dt) b) = velocity_x b.
Proof.
  intro H0. induction n as [| n [IHx IHv]]; simpl; [split; reflexivity|].
  split; [| exact IHv].
  rewrite IHv, H0, IHx. lia.
Qed.

Lemma move_iter_y (dt : Q) (n : nat) (b : Ball) :
  py_int (velocity_y b * dt) = 0 ->
  rect_y (b_rect (Nat.iter n (move dt) b)) = rect_y (b_rect b)
  /\ velocity_y (Nat.iter n (move dt) b) = velocity_y b.
Proof.
  intro H0. induction n as [| n [IHy IHv]]; simpl; [split; reflexivity|].
  split; [| exact IHv].
  rewrite IHv, H0, IHy. lia.
Qed.

(** C10.  The integration step of [Ball.update] adds [int(velocity.x * dt)]
    and [int(velocity.y * dt)] to the position.  When [|velocity.x * dt| < 1]
    the horizontal position is unchanged by the step, and stays unchanged
    over any number of such steps; likewise for the vertical component. *)
Theorem move_truncates_displacement (dt : Q) (b : Ball) :
  rect_x (b_rect (move dt b))
    = rect_x (b_rect b) + py_int (velocity_x b * dt)
  /\ rect_y (b_rect (move dt b))
    = rect_y (b_rect b) + py_int (velocity_y b * dt)
  /\ ((Qabs (velocity_x b * dt) < 1)%Q ->
      forall n, rect_x (b_rect (Nat.iter n (move dt) b)) = rect_x (b_rect b))
  /\ ((Qabs (velocity_y b * dt) < 1)%Q ->
      forall n, rect_y (b_rect (Nat.iter n (move dt) b)) = rect_y (b_rect b)).
Proof.
  repeat split; try reflexivity; intros H n.
  - apply move_iter_x, py_int_small, H.
  - apply move_iter_y, py_int_small, H.
Qed.

Lemma move_truncates_displacement_witness :
  (Qabs (velocity_x slow_ball * (1 # 60)) < 1)%Q
  /\ (Qabs (velocity_y slow_ball * (1 # 60)) < 1)%Q
  /\ rect_x (b_rect (Nat.iter 60 (move (1 # 60)) slow_ball)) = 393
  /\ rect_y (b_rect (Nat.iter 60 (move (1 # 60)) slow_ball)) = 293.
Proof.
  destruct (move_truncates_displacement (1 # 60) slow_ball)
    as (_ & _ & Hx & Hy).
  split; [reflexivity|]. split; [reflexivity|].
  split; [apply (Hx eq_refl 60%nat) | apply (Hy eq_refl 60%nat)].
Defined.

(** ** Ball: walls and paddles *)

Section BallFacts.

Variables cos sin : Q -> Q.

(** The bounce routine never raises; it replaces the velocity, ramps
    the speed and moves the ball horizontally only. *)
Lemma _bounce_off_paddle_ok (p : Paddle) (is_left : bool) (j : Q)
      (b : Ball) :
  exists b', _bounce_off_paddle cos sin p is_left j b = Ok b'
    /\ b_speed b' = Z.min BALL_SPEED_MAX (b_speed b + BALL_SPEED_INCREMENT)
    /\ rect_y (b_rect b') = rect_y (b_rect b)
    /\ rect_h (b_rect b') = rect_h (b_rect b)
    /\ rect_w (b_rect b') = rect_w (b_rect b)
    /\ (if is_left then R.left (b_rect b') = R.right (p_rect p)
        else R.right (b_rect b') = R.left (p_rect p))
    /\ _serve_dir b' = _serve_dir b
    /\ _serve_time b' = _serve_time b.
Proof.
  unfold _bounce_off_paddle.
  change (py_truediv (inject_Z PADDLE_HEIGHT) 2) with (Ok (100 # 2)%Q).
  cbn [bind]. rewrite py_truediv_total by (intro H; discriminate H).
  cbn [bind]. eexists; split; [reflexivity|].
  destruct is_left; cbn; repeat split; try reflexivity;
    unfold R.right, R.left, R.set_right, R.set_x; cbn; lia.
Qed.

Lemma collide_paddles_ok (lp rp : Paddle) (j : Q) (b : Ball) :
  exists b', collide_paddles cos sin lp rp j b = Ok b'
    /\ rect_y (b_rect b') = rect_y (b_rect b)
    /\ rect_h (b_rect b') = rect_h (b_rect b)
    /\ rect_w (b_rect b') = rect_w (b_rect b)
    /\ _serve_dir b' = _serve_dir b
    /\ _serve_time b' = _serve_time b.
Proof.
  unfold collide_paddles.
  destruct (_ && _).
  - destruct (_bounce_off_paddle_ok lp true j b) as (b' & E & H).
    exists b'. intuition.
  - destruct (_ && _).
    + destruct (_bounce_off_paddle_ok rp false j b) as (b' & E & H).
      exists b'. intuition.
    + exists b. intuition.
Qed.

(** The shape of [Ball.update] on its two paths. *)
Lemma Ball_update_waiting (dt : Q) (lp rp : Paddle) (now : Z) (d : Draws)
      (b : Ball) :
  Qeq_bool (length_squared (Ball_serve_if_ready cos sin now (serve_angle d) b)) 0
    = true ->
  Ball_update cos sin dt lp rp now d b
    = Ok (Ball_serve_if_ready cos sin now (serve_angle d) b, 0).
Proof. intro H. unfold Ball_update. now rewrite H. Qed.

Lemma Ball_update_in_flight (dt : Q) (lp rp : Paddle) (now : Z) (d : Draws)
      (b : Ball) :
  Qeq_bool (length_squared (Ball_serve_if_ready cos sin now (serve_angle d) b)) 0
    = false ->
  exists b',
    collide_paddles cos sin lp rp (bounce_jitter d)
      (collide_walls
         (move dt (Ball_serve_if_ready cos sin now (serve_angle d) b)))
      = Ok b'
    /\ Ball_update cos sin dt lp rp now d b = Ok (b', score_signal b').
Proof.
  intro H. unfold Ball_update. rewrite H.
  destruct (collide_paddles_ok lp rp (bounce_jitter d)
              (collide_walls
                 (move dt
                    (Ball_serve_if_ready cos sin now (serve_angle d) b))))
    as (b' & E & _).
  exists b'. rewrite E. split; reflexivity.
Qed.

Lemma Ball_update_total (dt : Q) (lp rp : Paddle) (now : Z) (d : Draws)
      (b : Ball) :
  exists b' sd, Ball_update cos sin dt lp rp now d b = Ok (b', sd)
                /\ (sd = 1 \/ sd = -1 \/ sd = 0).
Proof.
  destruct (Qeq_bool (length_squared
              (Ball_serve_if_ready cos sin now (serve_angle d) b)) 0) eqn:E.
  - eexists; exists 0. rewrite Ball_update_waiting by exact E. auto.
  - destruct (Ball_update_in_flight dt lp rp now d b E) as (b' & _ & H).
    exists b', (score_signal b'). split; [exact H|].
    unfold score_signal. repeat destruct (_ <? _); auto.
Qed.

End BallFacts.

(** C4 (as amended).  A paddle hit with [speed] in
    [[BALL_SPEED, BALL_SPEED_MAX]] sets [speed] to
    [min(BALL_SPEED_MAX, speed + BALL_SPEED_INCREMENT)]: the speed never
    decreases and never exceeds the cap, it strictly increases unless it
    was at the cap, it increases by exactly the increment when
    [speed + BALL_SPEED_INCREMENT <= BALL_SPEED_MAX], and otherwise it
    becomes exactly the cap. *)
Theorem bounce_speed_ramp (cos sin : Q -> Q) (p : Paddle) (is_left : bool)
        (j : Q) (b : Ball) :
  BALL_SPEED <= b_speed b <= BALL_SPEED_MAX ->
  exists b', _bounce_off_paddle cos sin p is_left j b = Ok b'
    /\ b_speed b <= b_speed b' <= BALL_SPEED_MAX
    /\ (b_speed b < BALL_SPEED_MAX -> b_speed b < b_speed b')
    /\ (b_speed b + BALL_SPEED_INCREMENT <= BALL_SPEED_MAX ->
        b_speed b' = b_speed b + BALL_SPEED_INCREMENT)
    /\ (BALL_SPEED_MAX < b_speed b + BALL_SPEED_INCREMENT ->
        b_speed b' = BALL_SPEED_MAX).
Proof.
  intro Hr.
  destruct (_bounce_off_paddle_ok cos sin p is_left j b) as (b' & E & Hs & _).
  exists b'. split; [exact E|]. rewrite Hs.
  unfold BALL_SPEED, BALL_SPEED_MAX, BALL_SPEED_INCREMENT in *. lia.
Qed.

Example speed_after_17_hits :
  Nat.iter 17 (fun s => Z.min BALL_SPEED_MAX (s + BALL_SPEED_INCREMENT))
           BALL_SPEED = 666.
Proof. reflexivity. Qed.

Lemma bounce_speed_ramp_witness :
  BALL_SPEED <= b_speed ball_666 <= BALL_SPEED_MAX
  /\ exists b',
      _bounce_off_paddle cos_taylor sin_taylor paddle_l0 true 0 ball_666
        = Ok b'
      /\ b_speed b' = BALL_SPEED_MAX.
Proof.
  split; [split; discriminate|].
  destruct (bounce_speed_ramp cos_taylor sin_taylor paddle_l0 true 0 ball_666)
    as (b' & E & _ & _ & _ & Hcap); [split; discriminate|].
  exists b'. split; [exact E | apply Hcap; reflexivity].
Defined.

(** C4 as stated fails: at [speed = 666], which is inside the range and
    below the cap, a hit raises the speed to 680, an increase of 14. *)
Lemma bounce_increment_counterexample :
  ~ (forall (cos sin : Q -> Q) (p : Paddle) (is_left : bool) (j : Q)
            (b b' : Ball),
        BALL_SPEED <= b_speed b <= BALL_SPEED_MAX ->
        _bounce_off_paddle cos sin p is_left j b = Ok b' ->
        b_speed b <= b_speed b' <= BALL_SPEED_MAX
        /\ (b_speed b' = b_speed b + BALL_SPEED_INCREMENT
            \/ b_speed b = BALL_SPEED_MAX)).
Proof.
  intro H.
  destruct (_bounce_off_paddle_ok cos_taylor sin_taylor paddle_l0 true 0
              ball_666) as (b' & E & Hs & _).
  destruct (H cos_taylor sin_taylor paddle_l0 true 0%Q ball_666 b')
    as (_ & [Hinc | Hcap]).
  - split; discriminate.
  - exact E.
  - rewrite Hs in Hinc. discriminate Hinc.
  - discriminate Hcap.
Qed.

(** The wall handling on a ball of the game's size. *)
Lemma collide_walls_spec (c : Ball) :
  rect_h (b_rect c) = BALL_SIZE ->
  R.top (b_rect c) <= 0 \/ SCREEN_HEIGHT <= R.bottom (b_rect c) ->
  (velocity_y (collide_walls c) == - velocity_y c)%Q
  /\ velocity_x (collide_walls c) = velocity_x c
  /\ rect_x (b_rect (collide_walls c)) = rect_x (b_rect c)
  /\ (R.top (b_rect c) <= 0 -> R.top (b_rect (collide_walls c)) = 0)
  /\ (SCREEN_HEIGHT <= R.bottom (b_rect c) ->
      R.bottom (b_rect (collide_walls c)) = SCREEN_HEIGHT).
Proof.
  destruct c as [[x y w h] vx vy sp sd st].
  unfold collide_walls, R.top, R.bottom, SCREEN_HEIGHT, BALL_SIZE.
  cbn [b_rect rect_y rect_h]. intros -> Hwall.
  destruct (y <=? 0) eqn:Et.
  - apply Z.leb_le in Et. cbn.
    repeat split; try lra; try reflexivity. intro Hb. lia.
  - apply Z.leb_gt in Et.
    destruct (600 <=? y + 14) eqn:Eb.
    + cbn. repeat split; try lra; try reflexivity; intros; lia.
    + apply Z.leb_gt in Eb. lia.
Qed.

(** C8.  In an in-flight [Ball.update] whose moved ball reaches or
    crosses the top or the bottom bound, the wall handling puts the ball
    on that bound, negates the vertical velocity (same magnitude) and
    leaves the horizontal velocity and position alone; the vertical
    position it set is the one [update] returns. *)
Theorem wall_collision_elastic (cos sin : Q -> Q) (dt : Q) (lp rp : Paddle)
        (now : Z) (d : Draws) (b : Ball) :
  let b1 := Ball_serve_if_ready cos sin now (serve_angle d) b in
  let b2 := move dt b1 in
  let b3 := collide_walls b2 in
  Qeq_bool (length_squared b1) 0 = false ->
  rect_h (b_rect b) = BALL_SIZE ->
  R.top (b_rect b2) <= 0 \/ SCREEN_HEIGHT <= R.bottom (b_rect b2) ->
  (velocity_y b3 == - velocity_y b1)%Q
  /\ (Qabs (velocity_y b3) == Qabs (velocity_y b1))%Q
  /\ velocity_x b3 = velocity_x b1
  /\ rect_x (b_rect b3) = rect_x (b_rect b2)
  /\ (R.top (b_rect b2) <= 0 -> R.top (b_rect b3) = 0)
  /\ (SCREEN_HEIGHT <= R.bottom (b_rect b2) ->
      R.bottom (b_rect b3) = SCREEN_HEIGHT)
  /\ exists b' sd,
      Ball_update cos sin dt lp rp now d b = Ok (b', sd)
      /\ rect_y (b_rect b') = rect_y (b_rect b3).
Proof.
  intros b1 b2 b3 Hfly Hh Hwall.
  assert (Hh2 : rect_h (b_rect b2) = BALL_SIZE).
  { unfold b2, b1, Ball_serve_if_ready.
    destruct (_ && _); cbn; exact Hh. }
  assert (Hv2 : velocity_y b2 = velocity_y b1 /\ velocity_x b2 = velocity_x b1)
    by (split; reflexivity).
  destruct Hv2 as [Hvy Hvx].
  assert (Hflip : (velocity_y b3 == - velocity_y b1)%Q
                  /\ velocity_x b3 = velocity_x b1
                  /\ rect_x (b_rect b3) = rect_x (b_rect b2)
                  /\ (R.top (b_rect b2) <= 0 -> R.top (b_rect b3) = 0)
                  /\ (SCREEN_HEIGHT <= R.bottom (b_rect b2) ->
                      R.bottom (b_rect b3) = SCREEN_HEIGHT)).
  { rewrite <- Hvy, <- Hvx. unfold b3.
    apply collide_walls_spec; assumption. }
  destruct Hflip as (Hy & Hx & Hrx & Htop & Hbot).
  split; [exact Hy|].
  split; [rewrite Hy; apply Qabs_opp|].
  repeat (split; [assumption|]).
  destruct (Ball_update_in_flight cos sin dt lp rp now d b Hfly)
    as (b' & Ecol & Eupd).
  exists b', (score_signal b'). split; [exact Eupd|].
  destruct (collide_paddles_ok cos sin lp rp (bounce_jitter d) b3)
    as (b'' & E'' & Hry & _).
  fold b1 b2 b3 in Ecol. rewrite Ecol in E''. injection E'' as <-.
  exact Hry.
Qed.

Lemma wall_collision_elastic_witness :
  (velocity_y (collide_walls (move (1 # 60) ball_near_top)) == 300)%Q
  /\ R.top (b_rect (collide_walls (move (1 # 60) ball_near_top))) = 0
  /\ exists b' sd,
      Ball_update cos_taylor sin_taylor (1 # 60) paddle_l0 paddle_r0 0 draws0
                  ball_near_top = Ok (b', sd)
      /\ rect_y (b_rect b') = 0.
Proof.
  destruct (wall_collision_elastic cos_taylor sin_taylor (1 # 60)
              paddle_l0 paddle_r0 0 draws0 ball_near_top)
    as (Hy & _ & _ & _ & Htop & _ & Hupd).
  - reflexivity.
  - reflexivity.
  - left. discriminate.
  - split; [exact Hy|]. split; [apply Htop; discriminate|]. exact Hupd.
Defined.

(** ** Paddles *)

Lemma centery_set_centery (v : Z) (r : Rect) :
  R.centery (R.set_centery v r) = v.
Proof. unfold R.centery, R.set_centery, R.set_y. cbn. lia. Qed.

Lemma update_player_in_bounds (dt : Q) (up down : bool) (p : Paddle) :
  paddle_in_bounds (Paddle_update_player dt up down p)
  /\ rect_h (p_rect (Paddle_update_player dt up down p)) = rect_h (p_rect p).
Proof.
  unfold paddle_in_bounds, Paddle_update_player.
  cbn [p_rect with_p_rect]. rewrite centery_set_centery.
  split; [| reflexivity].
  unfold PADDLE_HEIGHT, SCREEN_HEIGHT.
  change (100 / 2) with 50. lia.
Qed.

Lemma track_in_bounds (dt : Q) (p : Paddle) :
  rect_h (p_rect p) = PADDLE_HEIGHT ->
  paddle_in_bounds (track dt p)
  /\ rect_h (p_rect (track dt p)) = PADDLE_HEIGHT.
Proof.
  intro Hh. unfold paddle_in_bounds, track.
  cbn [p_rect with_p_rect].
  set (c := py_int _).
  unfold R.centery, R.set_bottom, R.set_top, R.set_centery, R.set_y,
    R.top, R.bottom.
  cbn [rect_x rect_y rect_w rect_h]. rewrite Hh.
  unfold PADDLE_HEIGHT, SCREEN_HEIGHT. change (100 / 2) with 50.
  split; [lia | reflexivity].
Qed.

Lemma time_to_reach_total (p : Paddle) (b : Ball) :
  exists t, time_to_reach p b = Ok t.
Proof.
  unfold time_to_reach, py_truediv.
  destruct (Qeq_bool (velocity_x b) 0); cbn; eexists; reflexivity.
Qed.

Lemma retarget_total (p : Paddle) (b : Ball) (d : Draws) :
  exists at_, retarget p b d = Ok at_.
Proof.
  unfold retarget. destruct (Qltb 0 (velocity_x b)).
  - destruct (time_to_reach_total p b) as (t & ->). cbn [bind].
    match goal with
    | |- context [reflect_off_bounds ?y ?lo ?hi] =>
        destruct (reflect_off_bounds_total y lo hi) as (r & ->)
    end.
    cbn [bind]. rewrite py_truediv_total by (intro H; discriminate H).
    cbn [bind]. eexists; reflexivity.
  - rewrite py_truediv_total by (intro H; discriminate H).
    cbn [bind]. eexists; reflexivity.
Qed.

Lemma update_ai_ok (dt : Q) (b : Ball) (d : Draws) (p : Paddle) :
  exists p', Paddle_update_ai dt b d p = Ok p'
    /\ (rect_h (p_rect p) = PADDLE_HEIGHT ->
        paddle_in_bounds p' /\ rect_h (p_rect p') = PADDLE_HEIGHT).
Proof.
  unfold Paddle_update_ai.
  destruct (Qle_bool _ _).
  - destruct (retarget_total p b d) as (a & ->). cbn [bind].
    eexists; split; [reflexivity|]. intro Hh. apply track_in_bounds. exact Hh.
  - cbn [bind].
    eexists; split; [reflexivity|]. intro Hh. apply track_in_bounds. exact Hh.
Qed.

(** ** Match loop *)

Section MatchFacts.

Variables cos sin : Q -> Q.

(** A frame is the composition of its four steps, none of which
    raises. *)
Lemma frame_steps (s : Match) (i : FrameIn) :
  exists rp b1 sd,
    Paddle_update_ai (dt i) (ball s) (draws i) (right_paddle s) = Ok rp
    /\ Ball_update cos sin (dt i)
         (Paddle_update_player (dt i) (key_w i) (key_s i) (left_paddle s))
         rp (ticks_update i) (draws i) (ball s) = Ok (b1, sd)
    /\ (sd = 1 \/ sd = -1 \/ sd = 0)
    /\ frame cos sin s i
       = Ok (let '(b, ls, rs) :=
               handle_score sd (ticks_reset i) b1
                            (left_score s) (right_score s) in
             mkMatch
               (Paddle_update_player (dt i) (key_w i) (key_s i)
                                     (left_paddle s))
               rp (win_banner b ls rs) ls rs
               (if quit i then false else running s)).
Proof.
  destruct (update_ai_ok (dt i) (ball s) (draws i) (right_paddle s))
    as (rp & Erp & _).
  destruct (Ball_update_total cos sin (dt i)
              (Paddle_update_player (dt i) (key_w i) (key_s i)
                                    (left_paddle s))
              rp (ticks_update i) (draws i) (ball s))
    as (b1 & sd & Eb & Hsd).
  exists rp, b1, sd. repeat split; try assumption.
  unfold frame. rewrite Erp. cbn [bind]. rewrite Eb. cbn [bind fst snd].
  destruct (handle_score _ _ _ _ _) as [[b' ls] rs]. reflexivity.
Qed.

Lemma frame_total (s : Match) (i : FrameIn) :
  exists s', frame cos sin s i = Ok s'.
Proof.
  destruct (frame_steps s i) as (rp & b1 & sd & _ & _ & _ & E).
  eexists. exact E.
Qed.

Lemma run_total (inputs : list FrameIn) :
  forall s, exists s', run cos sin s inputs = Ok s'.
Proof.
  induction inputs as [| i rest IH]; intro s; cbn [run].
  - eexists; reflexivity.
  - destruct (running s); [| eexists; reflexivity].
    destruct (frame_total s i) as (s1 & ->). cbn [bind]. apply IH.
Qed.

End MatchFacts.

(** ** Scoring *)

(** The value [Ball.update] returns: 0 while waiting for the serve,
    the out-of-bounds test of lines 165-170 in flight. *)
Lemma Ball_update_cases (cos sin : Q -> Q) (dt : Q) (lp rp : Paddle)
      (now : Z) (d : Draws) (b : Ball) :
  exists b' sd,
    Ball_update cos sin dt lp rp now d b = Ok (b', sd)
    /\ ((Qeq_bool (length_squared
                     (Ball_serve_if_ready cos sin now (serve_angle d) b)) 0
           = true /\ sd = 0)
        \/ (Qeq_bool (length_squared
                        (Ball_serve_if_ready cos sin now (serve_angle d) b)) 0
              = false /\ sd = score_signal b')).
Proof.
  destruct (Qeq_bool (length_squared
              (Ball_serve_if_ready cos sin now (serve_angle d) b)) 0) eqn:E.
  - eexists; exists 0. rewrite Ball_update_waiting by exact E. auto.
  - destruct (Ball_update_in_flight cos sin dt lp rp now d b E)
      as (b' & _ & H).
    exists b', (score_signal b'). auto.
Qed.

Lemma score_signal_cases (b : Ball) :
  (R.right (b_rect b) < 0 /\ score_signal b = 1)
  \/ (0 <= R.right (b_rect b) /\ SCREEN_WIDTH < R.left (b_rect b)
      /\ score_signal b = -1)
  \/ (0 <= R.right (b_rect b) /\ R.left (b_rect b) <= SCREEN_WIDTH
      /\ score_signal b = 0).
Proof.
  unfold score_signal.
  destruct (R.right (b_rect b) <? 0) eqn:E1.
  - apply Z.ltb_lt in E1. auto.
  - apply Z.ltb_ge in E1.
    destruct (SCREEN_WIDTH <? R.left (b_rect b)) eqn:E2.
    + apply Z.ltb_lt in E2. auto.
    + apply Z.ltb_ge in E2. auto.
Qed.

(** C1 (the code at the scenario's input).  For the ball just past the
    right screen edge and moving right, [Ball.update] returns -1, and for
    the ball just past the left edge moving left it returns +1: the
    opposite of the signs that C1 and the comment on line 142 give. *)
Theorem Ball_update_past_right_edge (cos sin : Q -> Q) (now : Z) (d : Draws) :
  (exists b',
      Ball_update cos sin (16 # 1000) paddle_l0 paddle_r0 now d
                  ball_past_right_edge = Ok (b', -1)
      /\ SCREEN_WIDTH < R.left (b_rect b'))
  /\ (exists b',
         Ball_update cos sin (16 # 1000) paddle_l0 paddle_r0 now d
                     ball_past_left_edge = Ok (b', 1)
         /\ R.right (b_rect b') < 0).
Proof.
  split; eexists; (split; [reflexivity | reflexivity]).
Qed.

(** What a frame does with the score signal. *)
Lemma frame_score_cases (cos sin : Q -> Q) (s : Match) (i : FrameIn) :
  let lp := Paddle_update_player (dt i) (key_w i) (key_s i) (left_paddle s) in
  exists rp b1 sd s',
    Paddle_update_ai (dt i) (ball s) (draws i) (right_paddle s) = Ok rp
    /\ Ball_update cos sin (dt i) lp rp (ticks_update i) (draws i) (ball s)
       = Ok (b1, sd)
    /\ frame cos sin s i = Ok s'
    /\ left_paddle s' = lp /\ right_paddle s' = rp
    /\ ((sd = 0 /\ left_score s' = left_score s
         /\ right_score s' = right_score s
         /\ ball s' = win_banner b1 (left_score s) (right_score s))
        \/ (sd = 1 /\ left_score s' = left_score s + 1
            /\ right_score s' = right_score s
            /\ ball s' = win_banner (Ball_reset 1 (ticks_reset i) b1)
                                    (left_score s + 1) (right_score s))
        \/ (sd = -1 /\ left_score s' = left_score s
            /\ right_score s' = right_score s + 1
            /\ ball s' = win_banner (Ball_reset (-1) (ticks_reset i) b1)
                                    (left_score s) (right_score s + 1))).
Proof.
  intro lp.
  destruct (frame_steps cos sin s i) as (rp & b1 & sd & Erp & Eb & Hsd & E).
  fold lp in Eb, E.
  eexists rp, b1, sd, _. split; [exact Erp|]. split; [exact Eb|].
  split; [exact E|].
  destruct Hsd as [-> | [-> | ->]]; cbn; auto 10.
Qed.

(** C2.  In the score-handling step of a frame, a nonzero signal from
    [Ball.update] adds exactly one to exactly one score: to [left_score]
    when the ball has fully left the screen past the left edge, to
    [right_score] when it has fully left past the right edge; a zero
    signal changes neither score. *)
Theorem score_step_increments_exited_side (cos sin : Q -> Q) (s : Match)
        (i : FrameIn) :
  exists rp b1 sd s',
    Paddle_update_ai (dt i) (ball s) (draws i) (right_paddle s) = Ok rp
    /\ Ball_update cos sin (dt i)
         (Paddle_update_player (dt i) (key_w i) (key_s i) (left_paddle s))
         rp (ticks_update i) (draws i) (ball s) = Ok (b1, sd)
    /\ frame cos sin s i = Ok s'
    /\ (sd = 0 ->
        left_score s' = left_score s /\ right_score s' = right_score s)
    /\ (sd <> 0 ->
        (R.right (b_rect b1) < 0
         /\ left_score s' = left_score s + 1
         /\ right_score s' = right_score s)
        \/ (SCREEN_WIDTH < R.left (b_rect b1) /\ 0 <= R.right (b_rect b1)
            /\ right_score s' = right_score s + 1
            /\ left_score s' = left_score s)).
Proof.
  destruct (frame_score_cases cos sin s i)
    as (rp & b1 & sd & s' & Erp & Eb & E & _ & _ & Hcases).
  exists rp, b1, sd, s'. repeat (split; [assumption|]).
  destruct (Ball_update_cases cos sin (dt i)
              (Paddle_update_player (dt i) (key_w i) (key_s i)
                 (left_paddle s))
              rp (ticks_update i) (draws i) (ball s))
    as (b1' & sd' & Eb' & Hsig).
  rewrite Eb in Eb'. injection Eb' as <- <-.
  split.
  - intros ->. destruct Hcases as [H | [H | H]]; [tauto | |];
      destruct H as [H _]; discriminate H.
  - intro Hnz.
    destruct Hsig as [[_ Hz] | [_ Hsig]]; [contradiction|].
    destruct (score_signal_cases b1) as [[Hr H1] | [(Hr & Hl & H1) | (_ & _ & H1)]];
      rewrite H1 in Hsig; subst sd.
    + left. destruct Hcases as [H | [H | H]];
        try (destruct H as [H _]; discriminate H). tauto.
    + right. destruct Hcases as [H | [H | H]];
        try (destruct H as [H _]; discriminate H). tauto.
    + contradiction.
Qed.

Lemma score_step_increments_exited_side_witness :
  exists s',
    frame cos_taylor sin_taylor match_left_exit frame_in0 = Ok s'
    /\ left_score s' = 1 /\ right_score s' = 0.
Proof.
  destruct (score_step_increments_exited_side cos_taylor sin_taylor
              match_left_exit frame_in0)
    as (rp & b1 & sd & s' & Erp & Eb & E & _ & Hnz).
  exists s'. split; [exact E|].
  injection Erp as <-. injection Eb as <- <-.
  destruct Hnz as [(_ & Hl & Hr) | (Hout & _)].
  - discriminate.
  - split; [exact Hl | exact Hr].
  - discriminate Hout.
Defined.

(** ** Serving *)

Lemma copysign_sign (x : Q) (s : Z) :
  (0 < x)%Q ->
  (0 <= s -> (0 < copysign x s)%Q) /\ (s < 0 -> (copysign x s < 0)%Q).
Proof.
  intro Hx. unfold copysign.
  assert (Ha : (Qabs x == x)%Q) by (apply Qabs_pos; lra).
  split; intro Hs.
  - destruct (s <? 0) eqn:E; [apply Z.ltb_lt in E; lia | lra].
  - destruct (s <? 0) eqn:E; [lra | apply Z.ltb_ge in E; lia].
Qed.

(** A ball that [reset] has just re-centred is launched by the first
    [serve_if_ready] at or after its serve time, with the stored
    direction as the sign of the horizontal velocity. *)
Lemma serve_after_reset (cos sin : Q -> Q) (dir t now : Z) (angle : Q)
      (b : Ball) (ls rs : Z) :
  let b0 := win_banner (Ball_reset dir t b) ls rs in
  _serve_time b0 = t + SERVE_DELAY
  /\ _serve_dir b0 = dir
  /\ velocity_x b0 = 0%Q /\ velocity_y b0 = 0%Q
  /\ (now < t + SERVE_DELAY ->
      Ball_serve_if_ready cos sin now angle b0 = b0)
  /\ (t + SERVE_DELAY <= now ->
      velocity_x (Ball_serve_if_ready cos sin now angle b0)
      = copysign (inject_Z BALL_SPEED * cos angle) dir).
Proof.
  intro b0.
  assert (Hb0 : b0 = Ball_reset dir t b).
  { unfold b0, win_banner. destruct (_ || _); reflexivity. }
  rewrite Hb0. cbn [Ball_reset _serve_time _serve_dir velocity_x velocity_y].
  repeat split.
  - intro Hlt. unfold Ball_serve_if_ready. cbn [_serve_time Ball_reset].
    apply Z.leb_gt in Hlt. rewrite Hlt, andb_false_r. reflexivity.
  - intro Hle. unfold Ball_serve_if_ready. cbn [_serve_time Ball_reset].
    apply Z.leb_le in Hle. rewrite Hle.
    change (Qeq_bool (length_squared _) 0) with true. reflexivity.
Qed.

(** C5.  When a frame's score signal is nonzero, [reset] stores the sign
    passed by the scoring branch, and the next serve (the first
    [serve_if_ready] at or after the new serve time, the launch angle
    having a positive cosine) moves right when [left_score] was
    incremented and left when [right_score] was incremented. *)
Theorem serve_goes_away_from_scorer (cos sin : Q -> Q) (s : Match)
        (i : FrameIn) :
  exists rp b1 sd s',
    Paddle_update_ai (dt i) (ball s) (draws i) (right_paddle s) = Ok rp
    /\ Ball_update cos sin (dt i)
         (Paddle_update_player (dt i) (key_w i) (key_s i) (left_paddle s))
         rp (ticks_update i) (draws i) (ball s) = Ok (b1, sd)
    /\ frame cos sin s i = Ok s'
    /\ (sd <> 0 ->
        _serve_time (ball s') = ticks_reset i + SERVE_DELAY
        /\ velocity_x (ball s') = 0%Q /\ velocity_y (ball s') = 0%Q
        /\ ((left_score s' = left_score s + 1
             /\ right_score s' = right_score s
             /\ _serve_dir (ball s') = 1
             /\ forall now angle,
                 _serve_time (ball s') <= now -> (0 < cos angle)%Q ->
                 (0 < velocity_x
                        (Ball_serve_if_ready cos sin now angle (ball s')))%Q)
            \/ (right_score s' = right_score s + 1
                /\ left_score s' = left_score s
                /\ _serve_dir (ball s') = -1
                /\ forall now angle,
                    _serve_time (ball s') <= now -> (0 < cos angle)%Q ->
                    (velocity_x
                       (Ball_serve_if_ready cos sin now angle (ball s'))
                     < 0)%Q))).
Proof.
  destruct (frame_score_cases cos sin s i)
    as (rp & b1 & sd & s' & Erp & Eb & E & _ & _ & Hcases).
  exists rp, b1, sd, s'. repeat (split; [assumption|]).
  intro Hnz.
  assert (Hspeed : forall angle, (0 < cos angle)%Q ->
                     (0 < inject_Z BALL_SPEED * cos angle)%Q).
  { intros angle Hc. apply Qmult_lt_0_compat; [reflexivity | exact Hc]. }
  destruct Hcases as [(H0 & _) | [(_ & Hl & Hr & Hb) | (_ & Hl & Hr & Hb)]];
    [contradiction | |].
  - destruct (serve_after_reset cos sin 1 (ticks_reset i) 0 0 b1
                (left_score s + 1) (right_score s))
      as (Ht & Hd & Hvx & Hvy & _).
    rewrite <- Hb in Ht, Hd, Hvx, Hvy.
    repeat (split; [assumption|]).
    left. repeat (split; [assumption|]).
    intros now angle Hready Hc.
    destruct (serve_after_reset cos sin 1 (ticks_reset i) now angle b1
                (left_score s + 1) (right_score s))
      as (_ & _ & _ & _ & _ & Hserve).
    rewrite <- Hb in Hserve. rewrite Hserve by lia.
    apply copysign_sign; [apply Hspeed, Hc | lia].
  - destruct (serve_after_reset cos sin (-1) (ticks_reset i) 0 0 b1
                (left_score s) (right_score s + 1))
      as (Ht & Hd & Hvx & Hvy & _).
    rewrite <- Hb in Ht, Hd, Hvx, Hvy.
    repeat (split; [assumption|]).
    right. repeat (split; [assumption|]).
    intros now angle Hready Hc.
    destruct (serve_after_reset cos sin (-1) (ticks_reset i) now angle b1
                (left_score s) (right_score s + 1))
      as (_ & _ & _ & _ & _ & Hserve).
    rewrite <- Hb in Hserve. rewrite Hserve by lia.
    apply copysign_sign; [apply Hspeed, Hc | lia].
Qed.

Lemma serve_goes_away_from_scorer_witness :
  exists s',
    frame cos_taylor sin_taylor match_left_exit frame_in0 = Ok s'
    /\ left_score s' = 1
    /\ (0 < velocity_x
              (Ball_serve_if_ready cos_taylor sin_taylor 2800 0 (ball s')))%Q.
Proof.
  destruct (serve_goes_away_from_scorer cos_taylor sin_taylor
              match_left_exit frame_in0)
    as (rp & b1 & sd & s' & Erp & Eb & E & Hnz).
  exists s'. split; [exact E|].
  injection Erp as <-. injection Eb as <- <-.
  destruct Hnz as (Ht & _ & _ & [(Hl & _ & _ & Hserve) | (Hr & _)]).
  - discriminate.
  - split; [exact Hl|]. apply Hserve; [rewrite Ht; discriminate | reflexivity].
  - injection E as <-. discriminate Hr.
Defined.

(** ** After the match is won *)

Lemma collide_walls_x (c : Ball) :
  rect_x (b_rect (collide_walls c)) = rect_x (b_rect c)
  /\ rect_w (b_rect (collide_walls c)) = rect_w (b_rect c).
Proof.
  unfold collide_walls.
  repeat destruct (_ <=? _); split; reflexivity.
Qed.

Lemma colliderect_x_apart (a b : Rect) :
  rect_x b + rect_w b <= rect_x a \/ rect_x a + rect_w a <= rect_x b ->
  R.colliderect a b = false.
Proof.
  intro H. unfold R.colliderect.
  destruct H as [H | H].
  - apply Z.ltb_ge in H. rewrite H. reflexivity.
  - apply Z.ltb_ge in H. rewrite H.
    repeat destruct (_ <? _); reflexivity.
Qed.

(** C3 (the code after a win).  From [match_won], the frame at clock
    reading 2000 (the serve delay has elapsed) serves the ball again and
    moves it: with [cos 0 = 1] the ball ends the frame five pixels to the
    right, although the banner code has zeroed its velocity again. *)
Theorem ball_moves_after_win (cos sin : Q -> Q) :
  (cos 0 == 1)%Q ->
  exists s',
    frame cos sin match_won frame_in0 = Ok s'
    /\ SCORE_TO_WIN <= left_score s'
    /\ velocity_x (ball s') = 0%Q /\ velocity_y (ball s') = 0%Q
    /\ rect_x (b_rect (ball match_won)) = 393
    /\ rect_x (b_rect (ball s')) = 398.
Proof.
  intro Hcos.
  set (b0 := ball match_won).
  set (b1 := Ball_serve_if_ready cos sin 2000 0 b0).
  assert (Hvx : (velocity_x b1 == 360)%Q).
  { change (velocity_x b1) with (Qabs (inject_Z BALL_SPEED * cos 0%Q)).
    rewrite Hcos. reflexivity. }
  assert (Hfly : Qeq_bool (length_squared b1) 0 = false).
  { apply Qeq_bool_false. unfold length_squared. rewrite Hvx.
    pose proof (Qmult_le_0_compat _ _ (Qabs_nonneg (velocity_y b1))
                                      (Qabs_nonneg (velocity_y b1))) as Hsq.
    assert (Hyy : (velocity_y b1 * velocity_y b1
                   == Qabs (velocity_y b1) * Qabs (velocity_y b1))%Q).
    { rewrite <- Qabs_Qmult. symmetry. apply Qabs_pos.
      destruct (Qlt_le_dec (velocity_y b1) 0) as [Hn | Hp].
      - setoid_replace (velocity_y b1 * velocity_y b1)%Q
          with ((- velocity_y b1) * (- velocity_y b1))%Q by ring.
        apply Qmult_le_0_compat; lra.
      - apply Qmult_le_0_compat; lra. }
    lra. }
  destruct (frame_score_cases cos sin match_won frame_in0)
    as (rp & c & sd & s' & Erp & Eb & E & _ & _ & Hcases).
  destruct (Ball_update_in_flight cos sin (dt frame_in0)
              (Paddle_update_player (dt frame_in0) (key_w frame_in0)
                 (key_s frame_in0) (left_paddle match_won))
              rp (ticks_update frame_in0) (draws frame_in0) b0 Hfly)
    as (c' & Ecol & Eb').
  fold b0 in Eb. rewrite Eb in Eb'. injection Eb' as <- Hsd.
  change (Ball_serve_if_ready cos sin (ticks_update frame_in0)
            (serve_angle (draws frame_in0)) b0) with b1 in Ecol.
  injection Erp as <-.
  set (b3 := collide_walls (move (dt frame_in0) b1)) in *.
  assert (Hx3 : rect_x (b_rect b3) = 398 /\ rect_w (b_rect b3) = 14).
  { unfold b3. destruct (collide_walls_x (move (dt frame_in0) b1)) as [-> ->].
    unfold move. cbn [b_rect with_b_rect R.set_y R.set_x rect_x rect_w].
    split; [| reflexivity].
    rewrite (py_int_Qeq _ (576 # 100)).
    - reflexivity.
    - rewrite Hvx. reflexivity. }
  destruct Hx3 as [Hx3 Hw3].
  assert (Hc : c = b3).
  { unfold collide_paddles in Ecol.
    rewrite !colliderect_x_apart in Ecol.
    - cbn in Ecol. congruence.
    - rewrite Hx3, Hw3. right. cbn. lia.
    - rewrite Hx3, Hw3. left. cbn. lia. }
  assert (Hsd0 : sd = 0).
  { rewrite Hsd, Hc. unfold score_signal, R.right, R.left.
    rewrite Hx3, Hw3. reflexivity. }
  exists s'. split; [exact E|].
  destruct Hcases as [(_ & Hl & _ & Hb) | [(H1 & _) | (H1 & _)]];
    [| congruence | congruence].
  rewrite Hl, Hb, Hc. change (win_banner b3 (left_score match_won)
                                (right_score match_won))
    with (with_velocity 0 0 b3).
  cbn [with_velocity velocity_x velocity_y b_rect].
  repeat split; try reflexivity; assumption.
Qed.

Lemma ball_moves_after_win_witness :
  (cos_taylor 0 == 1)%Q
  /\ exists s',
      frame cos_taylor sin_taylor match_won frame_in0 = Ok s'
      /\ rect_x (b_rect (ball s')) = 398.
Proof.
  split; [reflexivity|].
  destruct (ball_moves_after_win cos_taylor sin_taylor)
    as (s' & E & _ & _ & _ & _ & Hx); [reflexivity|].
  exists s'. split; [exact E | exact Hx].
Defined.

(** ** The paddle invariant *)

Lemma initial_paddles_ok (delay_l delay_r : Q) (serve_dir now : Z) :
  paddles_ok (initial delay_l delay_r serve_dir now).
Proof.
  unfold paddles_ok, paddle_in_bounds. cbn.
  repeat split; discriminate.
Qed.

Lemma frame_paddles_ok (cos sin : Q -> Q) (s : Match) (i : FrameIn) :
  rect_h (p_rect (left_paddle s)) = PADDLE_HEIGHT ->
  rect_h (p_rect (right_paddle s)) = PADDLE_HEIGHT ->
  exists s', frame cos sin s i = Ok s' /\ paddles_ok s'.
Proof.
  intros Hl Hr.
  destruct (frame_score_cases cos sin s i)
    as (rp & b1 & sd & s' & Erp & _ & E & Hlp & Hrp & _).
  exists s'. split; [exact E|].
  destruct (update_ai_ok (dt i) (ball s) (draws i) (right_paddle s))
    as (rp' & Erp' & Hai).
  rewrite Erp in Erp'. injection Erp' as <-.
  destruct (Hai Hr) as [Hin Hh].
  destruct (update_player_in_bounds (dt i) (key_w i) (key_s i)
              (left_paddle s)) as [Hpin Hph].
  unfold paddles_ok. rewrite Hlp, Hrp, Hph. auto.
Qed.

Lemma run_paddles_ok (cos sin : Q -> Q) (inputs : list FrameIn) :
  forall s, paddles_ok s ->
            exists s', run cos sin s inputs = Ok s' /\ paddles_ok s'.
Proof.
  induction inputs as [| i rest IH]; intros s Hs; cbn [run].
  - exists s. auto.
  - destruct (running s); [| exists s; auto].
    destruct Hs as (Hl & Hr & _).
    destruct (frame_paddles_ok cos sin s i Hl Hr) as (s1 & -> & Hs1).
    cbn [bind]. apply IH, Hs1.
Qed.

(** C7.  For every [dt] (in particular every [dt >= 0]) and every input,
    the paddle's vertical centre lies in
    [[PADDLE_HEIGHT / 2, SCREEN_HEIGHT - PADDLE_HEIGHT / 2]] after
    [update_player] and after [update_ai] (on a paddle of the game's
    height); every frame establishes this for both paddles, so it holds
    in every state the match loop reaches. *)
Theorem paddle_center_clamped (cos sin : Q -> Q) :
  (forall dt up down p,
      paddle_in_bounds (Paddle_update_player dt up down p))
  /\ (forall dt b d p,
         rect_h (p_rect p) = PADDLE_HEIGHT ->
         exists p', Paddle_update_ai dt b d p = Ok p' /\ paddle_in_bounds p')
  /\ (forall s i,
         paddles_ok s ->
         exists s', frame cos sin s i = Ok s' /\ paddles_ok s')
  /\ (forall delay_l delay_r serve_dir now inputs,
         exists s',
           run cos sin (initial delay_l delay_r serve_dir now) inputs = Ok s'
           /\ paddles_ok s').
Proof.
  split; [intros; apply update_player_in_bounds|].
  split.
  { intros dt b d p Hh.
    destruct (update_ai_ok dt b d p) as (p' & E & H).
    exists p'. split; [exact E | apply H, Hh]. }
  split.
  { intros s i (Hl & Hr & _). apply frame_paddles_ok; assumption. }
  intros. apply run_paddles_ok, initial_paddles_ok.
Qed.

Lemma paddle_center_clamped_witness :
  rect_h (p_rect paddle_low) = PADDLE_HEIGHT
  /\ exists p',
      Paddle_update_ai (16 # 1000) slow_ball draws0 paddle_low = Ok p'
      /\ paddle_in_bounds p'.
Proof.
  split; [reflexivity|].
  destruct (paddle_center_clamped cos_taylor sin_taylor) as (_ & Hai & _).
  apply Hai. reflexivity.
Defined.

Example paddle_low_stays :
  exists p', Paddle_update_ai (16 # 1000) slow_ball draws0 paddle_low = Ok p'
             /\ R.centery (p_rect p') = 550.
Proof. eexists; split; reflexivity. Qed.

(** * Further properties of the code *)

(** ** Floors, truncation and the floored remainder *)

Lemma Qfloor_unique (q : Q) (z : Z) :
  (inject_Z z <= q < inject_Z z + 1)%Q -> Qfloor q = z.
Proof.
  intros [Hlo Hhi].
  pose proof (Qfloor_le q) as Hfl. pose proof (Qlt_floor q) as Hfu.
  rewrite inject_Z_plus in Hfu. change (inject_Z 1) with 1%Q in Hfu.
  assert (H1 : (Qfloor q < z + 1)%Z).
  { rewrite Zlt_Qlt, inject_Z_plus. change (inject_Z 1) with 1%Q. lra. }
  assert (H2 : (z < Qfloor q + 1)%Z).
  { rewrite Zlt_Qlt, inject_Z_plus. change (inject_Z 1) with 1%Q. lra. }
  lia.
Qed.

Lemma Qfloor_shift (c : Z) (q : Q) :
  Qfloor (inject_Z c + q) = c + Qfloor q.
Proof.
  apply Qfloor_unique.
  pose proof (Qfloor_le q) as Hfl. pose proof (Qlt_floor q) as Hfu.
  rewrite inject_Z_plus in Hfu. change (inject_Z 1) with 1%Q in Hfu.
  rewrite inject_Z_plus. split; lra.
Qed.

Lemma py_int_nonpos (q : Q) : (q <= 0)%Q -> py_int q = Qceiling q.
Proof.
  intro H. unfold Qceiling.
  assert (Hq : py_int q = - py_int (- q)) by (rewrite py_int_opp; lia).
  rewrite Hq, py_int_nonneg by lra. reflexivity.
Qed.

Lemma py_int_Z (c : Z) : py_int (inject_Z c) = c.
Proof. unfold py_int. cbn. apply Z.quot_1_r. Qed.

(** Truncation moves a number toward zero by less than one. *)
Lemma py_int_near (q : Q) :
  (q - 1 < inject_Z (py_int q) < q + 1)%Q
  /\ ((0 <= q)%Q -> (0 <= inject_Z (py_int q) <= q)%Q)
  /\ ((q <= 0)%Q -> (q <= inject_Z (py_int q) <= 0)%Q).
Proof.
  pose proof (Qfloor_le q) as Hfl. pose proof (Qlt_floor q) as Hfu.
  pose proof (Qle_ceiling q) as Hcl. pose proof (Qceiling_lt q) as Hcu.
  rewrite inject_Z_plus in Hfu. change (inject_Z 1) with 1%Q in Hfu.
  unfold Zminus in Hcu. rewrite inject_Z_plus in Hcu.
  change (inject_Z (- (1))) with (- (1))%Q in Hcu.
  assert (Hpos : (0 <= q)%Q -> (0 <= inject_Z (py_int q) <= q)%Q).
  { intro H. rewrite py_int_nonneg by exact H. split; [| exact Hfl].
    change 0%Q with (inject_Z 0). rewrite <- Zle_Qle.
    change 0 with (Qfloor 0). apply Qfloor_resp_le, H. }
  assert (Hneg : (q <= 0)%Q -> (q <= inject_Z (py_int q) <= 0)%Q).
  { intro H. rewrite py_int_nonpos by exact H. split; [exact Hcl|].
    change 0%Q with (inject_Z 0). rewrite <- Zle_Qle.
    change 0 with (Qceiling 0). apply Qceiling_resp_le, H. }
  split; [| split; assumption].
  destruct (Qlt_le_dec q 0) as [Hn | Hp].
  - destruct Hneg as [H1 H2]; [lra|].
    rewrite py_int_nonpos in * by lra. split; lra.
  - destruct (Hpos Hp) as [H1 H2].
    rewrite py_int_nonneg in * by lra. split; lra.
Qed.

(** The value of [a % b] for [b > 0]: the unique [t] in [[0, b)] that
    differs from [a] by a multiple of [b]. *)
Lemma py_mod_unique (a b : Q) (n : Z) (t0 : Q) :
  (0 < b)%Q -> (0 <= t0 < b)%Q -> (a == b * inject_Z n + t0)%Q ->
  exists t, py_mod a b = Ok t /\ (t == t0)%Q.
Proof.
  intros Hb Ht Ha. unfold py_mod.
  assert (Hnz : ~ (b == 0)%Q) by lra.
  apply Qeq_bool_false in Hnz as Hz. rewrite Hz.
  eexists; split; [reflexivity|].
  assert (Hq : (a / b == inject_Z n + t0 / b)%Q)
    by (rewrite Ha; field; exact Hnz).
  assert (Hfrac : (0 <= t0 / b < 1)%Q).
  { split; [apply Qle_shift_div_l; lra | apply Qlt_shift_div_r; lra]. }
  assert (Hf : Qfloor (a / b) = n).
  { apply Qfloor_unique. rewrite Hq. split; lra. }
  rewrite Hf. lra.
Qed.

Lemma py_mod_decompose (a b : Q) :
  (0 < b)%Q ->
  exists t n, py_mod a b = Ok t /\ (0 <= t < b)%Q
              /\ (a == b * inject_Z n + t)%Q.
Proof.
  intro Hb. destruct (py_mod_pos a b Hb) as (t & E & Hr & _).
  exists t, (Qfloor (a / b)). split; [exact E|]. split; [exact Hr|].
  assert (E' : py_mod a b = Ok (a - b * inject_Z (Qfloor (a / b)))%Q).
  { unfold py_mod. assert (Hnz : ~ (b == 0)%Q) by lra.
    apply Qeq_bool_false in Hnz. rewrite Hnz. reflexivity. }
  rewrite E in E'.
  apply (f_equal (fun r => match r with Ok x => x | Raise _ => 0%Q end)) in E'.
  lazy beta iota in E'. rewrite E'. ring.
Qed.

(** ** clamp and reflect_off_bounds *)

(** X1.  [clamp(val, lo, hi)] with [lo <= hi] lies in [[lo, hi]], is
    [val] when [val] is in range, [lo] when [val] is below and [hi] when
    it is above; with inverted bounds ([hi < lo]) it is [lo] whatever
    [val] is. *)
Theorem clamp_saturates (val lo hi : Q) :
  ((lo <= hi)%Q ->
   (lo <= clamp val lo hi <= hi)%Q
   /\ ((lo <= val <= hi)%Q -> (clamp val lo hi == val)%Q)
   /\ ((val <= lo)%Q -> (clamp val lo hi == lo)%Q)
   /\ ((hi <= val)%Q -> (clamp val lo hi == hi)%Q))
  /\ ((hi < lo)%Q -> clamp val lo hi = lo).
Proof.
  unfold clamp, py_max, py_min. split.
  - intro Hle.
    destruct (Qltb val hi) eqn:E1;
      [apply Qltb_true in E1 | apply Qltb_false in E1].
    + destruct (Qltb lo val) eqn:E2;
        [apply Qltb_true in E2 | apply Qltb_false in E2];
        repeat split; intros; lra.
    + destruct (Qltb lo hi) eqn:E2;
        [apply Qltb_true in E2 | apply Qltb_false in E2];
        repeat split; intros; lra.
  - intro Hlt.
    destruct (Qltb val hi) eqn:E1;
      [apply Qltb_true in E1 | apply Qltb_false in E1].
    + destruct (Qltb lo val) eqn:E2; [| reflexivity].
      apply Qltb_true in E2. lra.
    + destruct (Qltb lo hi) eqn:E2; [| reflexivity].
      apply Qltb_true in E2. lra.
Qed.

Lemma clamp_saturates_witness :
  (clamp 700 7 593 == 593)%Q /\ clamp 300 593 7 = 593%Q.
Proof.
  destruct (clamp_saturates 700 7 593) as [H _].
  destruct (clamp_saturates 300 593 7) as [_ H'].
  split; [apply H; discriminate | apply H'; reflexivity].
Defined.

(** X2.  With no room between the bounds ([max_y <= min_y])
    [reflect_off_bounds] does no folding and returns [min_y]. *)
Theorem reflect_off_bounds_degenerate (y lo hi : Q) :
  (hi <= lo)%Q -> reflect_off_bounds y lo hi = Ok lo.
Proof.
  intro H. unfold reflect_off_bounds.
  assert (E : Qle_bool (hi - lo) 0 = true) by (apply Qle_bool_iff; lra).
  rewrite E. f_equal.
  unfold clamp, py_max, py_min.
  destruct (Qltb y hi) eqn:E1;
    [apply Qltb_true in E1 | apply Qltb_false in E1].
  - destruct (Qltb lo y) eqn:E2; [| reflexivity].
    apply Qltb_true in E2. lra.
  - destruct (Qltb lo hi) eqn:E2; [| reflexivity].
    apply Qltb_true in E2. lra.
Qed.

Lemma reflect_off_bounds_degenerate_witness :
  reflect_off_bounds 1000 593 7 = Ok 593%Q.
Proof. apply reflect_off_bounds_degenerate. discriminate. Defined.

(** The folding step of [reflect_off_bounds] respects equality of
    rationals. *)
Lemma fold_back_Qeq (span t1 t2 : Q) :
  (t1 == t2)%Q ->
  ((if Qltb span t1 then 2 * span - t1 else t1)
   == (if Qltb span t2 then 2 * span - t2 else t2))%Q.
Proof.
  intro E.
  destruct (Qltb span t1) eqn:E1;
    [apply Qltb_true in E1 | apply Qltb_false in E1];
    (destruct (Qltb span t2) eqn:E2;
     [apply Qltb_true in E2 | apply Qltb_false in E2]); lra.
Qed.

(** X3.  For [lo < hi], [reflect_off_bounds] is periodic in [y] with
    period [2 * (hi - lo)]: shifting [y] by any whole number of periods
    gives the same result. *)
Theorem reflect_off_bounds_periodic (y lo hi : Q) (k : Z) :
  (lo < hi)%Q ->
  exists r1 r2,
    reflect_off_bounds y lo hi = Ok r1
    /\ reflect_off_bounds (y + 2 * (hi - lo) * inject_Z k)%Q lo hi = Ok r2
    /\ (r1 == r2)%Q.
Proof.
  intro Hlt. unfold reflect_off_bounds.
  assert (E : Qle_bool (hi - lo) 0 = false) by (apply Qle_bool_false; lra).
  rewrite E.
  destruct (py_mod_decompose (y - lo) (2 * (hi - lo)))
    as (t1 & n & E1 & Hr & Hd); [lra|].
  destruct (py_mod_unique (y + 2 * (hi - lo) * inject_Z k - lo)
              (2 * (hi - lo)) (n + k) t1) as (t2 & E2 & Ht); [lra | exact Hr | |].
  { rewrite inject_Z_plus. lra. }
  rewrite E1, E2. cbn [bind].
  eexists; eexists. split; [reflexivity|]. split; [reflexivity|].
  pose proof (fold_back_Qeq (hi - lo) t1 t2) as Hf.
  rewrite Hf by lra. reflexivity.
Qed.

Lemma reflect_off_bounds_periodic_witness :
  (7 < 593)%Q
  /\ exists r1 r2,
      reflect_off_bounds 100 7 593 = Ok r1
      /\ reflect_off_bounds (100 + 2 * (593 - 7) * inject_Z (-3))%Q 7 593
         = Ok r2
      /\ (r1 == r2)%Q.
Proof.
  split; [reflexivity|].
  apply reflect_off_bounds_periodic. reflexivity.
Defined.

(** X4.  For [lo < hi], a value at most one span above [hi] is mirrored
    at [hi], and a value at most one span below [lo] is mirrored at
    [lo]. *)
Theorem reflect_off_bounds_mirrors (y lo hi : Q) :
  (lo < hi)%Q ->
  exists r,
    reflect_off_bounds y lo hi = Ok r
    /\ ((hi <= y <= hi + (hi - lo))%Q -> (r == 2 * hi - y)%Q)
    /\ ((lo - (hi - lo) <= y <= lo)%Q -> (r == 2 * lo - y)%Q).
Proof.
  intro Hlt. unfold reflect_off_bounds.
  assert (E : Qle_bool (hi - lo) 0 = false) by (apply Qle_bool_false; lra).
  rewrite E.
  destruct (py_mod_decompose (y - lo) (2 * (hi - lo)))
    as (t & n & Et & Hr & Hd); [lra|].
  rewrite Et. cbn [bind]. eexists; split; [reflexivity|].
  split; intros [Hy1 Hy2].
  - destruct (Qlt_le_dec y (hi + (hi - lo))) as [Hin | Hend].
    + destruct (py_mod_unique (y - lo) (2 * (hi - lo)) 0 (y - lo))
        as (t' & Et' & Ht'); [lra | lra | change (inject_Z 0) with 0%Q; lra |].
      rewrite Et in Et'. injection Et' as <-.
      destruct (Qltb (hi - lo) t) eqn:Ef;
        [apply Qltb_true in Ef | apply Qltb_false in Ef]; lra.
    + destruct (py_mod_unique (y - lo) (2 * (hi - lo)) 1 0)
        as (t' & Et' & Ht'); [lra | lra | change (inject_Z 1) with 1%Q; lra |].
      rewrite Et in Et'. injection Et' as <-.
      destruct (Qltb (hi - lo) t) eqn:Ef;
        [apply Qltb_true in Ef | apply Qltb_false in Ef]; lra.
  - destruct (Qlt_le_dec y lo) as [Hin | Hend].
    + destruct (py_mod_unique (y - lo) (2 * (hi - lo)) (-1)
                  (y - lo + 2 * (hi - lo)))
        as (t' & Et' & Ht');
        [lra | lra | change (inject_Z (-1)) with (- (1))%Q; lra |].
      rewrite Et in Et'. injection Et' as <-.
      destruct (Qltb (hi - lo) t) eqn:Ef;
        [apply Qltb_true in Ef | apply Qltb_false in Ef]; lra.
    + destruct (py_mod_unique (y - lo) (2 * (hi - lo)) 0 0)
        as (t' & Et' & Ht'); [lra | lra | change (inject_Z 0) with 0%Q; lra |].
      rewrite Et in Et'. injection Et' as <-.
      destruct (Qltb (hi - lo) t) eqn:Ef;
        [apply Qltb_true in Ef | apply Qltb_false in Ef]; lra.
Qed.

Lemma reflect_off_bounds_mirrors_witness :
  (7 < 593)%Q /\ (593 <= 700 <= 593 + (593 - 7))%Q
  /\ exists r, reflect_off_bounds 700 7 593 = Ok r
               /\ (r == 2 * 593 - 700)%Q.
Proof.
  split; [reflexivity|]. split; [split; discriminate|].
  destruct (reflect_off_bounds_mirrors 700 7 593) as (r & E & Hhi & _);
    [reflexivity|].
  exists r. split; [exact E | apply Hhi; split; discriminate].
Defined.

(** ** The player's paddle *)

Lemma update_player_centery (dt : Q) (up down : bool) (p : Paddle) :
  R.centery (p_rect (Paddle_update_player dt up down p))
  = Z.max (PADDLE_HEIGHT / 2)
      (Z.min (SCREEN_HEIGHT - PADDLE_HEIGHT / 2)
         (py_int
            (inject_Z (R.centery (p_rect p))
             + (let dy := 0 in
                let dy := if up then dy - inject_Z (p_speed p) * dt else dy in
                if down then dy + inject_Z (p_speed p) * dt else dy))%Q)).
Proof.
  unfold Paddle_update_player. cbn [p_rect with_p_rect].
  apply centery_set_centery.
Qed.

Lemma set_centery_same (r : Rect) : R.set_centery (R.centery r) r = r.
Proof.
  destruct r as [x y w h]. unfold R.set_centery, R.centery, R.set_y. cbn.
  f_equal. lia.
Qed.

(** X5.  With neither key or with both keys pressed, [update_player]
    leaves a paddle that is within the bounds exactly as it was, for
    every [dt]: the two key contributions cancel. *)
Theorem update_player_idle (dt : Q) (up down : bool) (p : Paddle) :
  paddle_in_bounds p -> up = down ->
  Paddle_update_player dt up down p = p.
Proof.
  intros Hin ->.
  assert (Hc : py_int (inject_Z (R.centery (p_rect p))
                       + (let dy := 0 in
                          let dy := if down
                                    then dy - inject_Z (p_speed p) * dt
                                    else dy in
                          if down then dy + inject_Z (p_speed p) * dt
                          else dy))%Q
               = R.centery (p_rect p)).
  { rewrite <- (py_int_Z (R.centery (p_rect p))) at 2.
    apply py_int_Qeq. destruct down; cbv zeta; ring. }
  unfold Paddle_update_player. cbv zeta in Hc. rewrite Hc.
  unfold paddle_in_bounds in Hin.
  rewrite Z.min_r, Z.max_r by lia.
  rewrite set_centery_same. destruct p; reflexivity.
Qed.

Lemma update_player_idle_witness :
  Paddle_update_player (16 # 1000) true true paddle_l0 = paddle_l0.
Proof.
  apply update_player_idle; [split; discriminate | reflexivity].
Defined.

(** X6.  For [dt >= 0] and a paddle within the bounds, the W key alone
    moves the centre up and the S key alone moves it down, each by a
    whole number of pixels that differs from the displacement
    [speed * dt] by less than one, limited by the bounds; a key never
    moves the paddle the other way. *)
Theorem update_player_step (dt : Q) (p : Paddle) :
  (0 <= dt)%Q -> 0 <= p_speed p -> paddle_in_bounds p ->
  exists ku kd : Z,
    R.centery (p_rect (Paddle_update_player dt true false p))
    = Z.max (PADDLE_HEIGHT / 2) (R.centery (p_rect p) - ku)
    /\ R.centery (p_rect (Paddle_update_player dt false true p))
       = Z.min (SCREEN_HEIGHT - PADDLE_HEIGHT / 2) (R.centery (p_rect p) + kd)
    /\ 0 <= ku /\ 0 <= kd
    /\ (inject_Z (p_speed p) * dt - 1 < inject_Z ku
        < inject_Z (p_speed p) * dt + 1)%Q
    /\ (inject_Z (p_speed p) * dt - 1 < inject_Z kd
        < inject_Z (p_speed p) * dt + 1)%Q.
Proof.
  intros Hdt Hs Hin. rewrite !update_player_centery. cbv zeta.
  set (c := R.centery (p_rect p)) in *.
  set (d := (inject_Z (p_speed p) * dt)%Q).
  assert (Hd : (0 <= d)%Q).
  { unfold d. apply Qmult_le_0_compat; [| exact Hdt].
    change 0%Q with (inject_Z 0). rewrite <- Zle_Qle. exact Hs. }
  unfold paddle_in_bounds in Hin. fold c in Hin.
  unfold PADDLE_HEIGHT, SCREEN_HEIGHT in *.
  change (100 / 2) with 50 in *. change (600 - 50) with 550 in *.
  assert (Hfl : 0 <= Qfloor d).
  { change 0 with (Qfloor 0). apply Qfloor_resp_le, Hd. }
  assert (Hce : 0 <= Qceiling d).
  { change 0 with (Qceiling 0). apply Qceiling_resp_le, Hd. }
  pose proof (Qfloor_le d) as Hf1. pose proof (Qlt_floor d) as Hf2.
  pose proof (Qle_ceiling d) as Hc1. pose proof (Qceiling_lt d) as Hc2.
  rewrite inject_Z_plus in Hf2. change (inject_Z 1) with 1%Q in Hf2.
  unfold Zminus in Hc2. rewrite inject_Z_plus in Hc2.
  change (inject_Z (- (1))) with (- (1))%Q in Hc2.
  exists (Qceiling d), (Qfloor d).
  split; [| split; [| repeat split; try assumption; lra]].
  - destruct (Qlt_le_dec (inject_Z c + (0 - d)) 0) as [Hneg | Hpos].
    + destruct (py_int_near (inject_Z c + (0 - d))) as (_ & _ & Hn).
      destruct Hn as [_ Hn0]; [lra|].
      assert (Hn1 : py_int (inject_Z c + (0 - d)) <= 0)
        by (rewrite Zle_Qle; exact Hn0).
      assert (Hlt : c < Qceiling d) by (rewrite Zlt_Qlt; lra).
      lia.
    + rewrite py_int_nonneg by exact Hpos. rewrite Qfloor_shift.
      assert (Hf : Qfloor (0 - d) = - Qceiling d).
      { unfold Qceiling. rewrite Z.opp_involutive.
        apply Qfloor_comp. ring. }
      rewrite Hf. lia.
  - rewrite py_int_nonneg.
    + rewrite Qfloor_shift.
      assert (Hf : Qfloor (0 + d) = Qfloor d) by (apply Qfloor_comp; ring).
      rewrite Hf. lia.
    + assert (Hc0 : (0 <= inject_Z c)%Q).
      { change 0%Q with (inject_Z 0). rewrite <- Zle_Qle. lia. }
      lra.
Qed.

Lemma update_player_step_witness :
  exists ku kd : Z,
    R.centery (p_rect (Paddle_update_player (16 # 1000) true false paddle_l0))
    = Z.max (PADDLE_HEIGHT / 2) (300 - ku)
    /\ R.centery
         (p_rect (Paddle_update_player (16 # 1000) false true paddle_l0))
       = Z.min (SCREEN_HEIGHT - PADDLE_HEIGHT / 2) (300 + kd)
    /\ (420 * (16 # 1000) - 1 < inject_Z ku < 420 * (16 # 1000) + 1)%Q
    /\ (420 * (16 # 1000) - 1 < inject_Z kd < 420 * (16 # 1000) + 1)%Q.
Proof.
  destruct (update_player_step (16 # 1000) paddle_l0)
    as (ku & kd & Hu & Hd & _ & _ & Hku & Hkd);
    [discriminate | discriminate | split; discriminate |].
  exists ku, kd. auto.
Defined.

(** ** The AI paddle *)

(** [update_ai] is the tracking step applied to the paddle with its
    timer and target updated; the rectangle and the speed are those of
    the paddle it was called on. *)
Lemma update_ai_shape (dt : Q) (b : Ball) (d : Draws) (p : Paddle) :
  exists p1,
    Paddle_update_ai dt b d p = Ok (track dt p1)
    /\ p_rect p1 = p_rect p /\ p_speed p1 = p_speed p
    /\ is_ai p1 = is_ai p
    /\ (((_next_reaction_at p <= _reaction_timer p + dt * 1000)%Q
         /\ _reaction_timer p1 = 0%Q
         /\ _next_reaction_at p1 = reaction_delay d
         /\ exists a, retarget p b d = Ok a
                      /\ _aim_error p1 = fst a /\ _target_y p1 = snd a)
        \/ ((_reaction_timer p + dt * 1000 < _next_reaction_at p)%Q
            /\ _reaction_timer p1 = (_reaction_timer p + dt * 1000)%Q
            /\ _next_reaction_at p1 = _next_reaction_at p
            /\ _aim_error p1 = _aim_error p
            /\ _target_y p1 = _target_y p)).
Proof.
  unfold Paddle_update_ai.
  destruct (Qle_bool (_next_reaction_at p) (_reaction_timer p + dt * 1000))
    eqn:E.
  - apply Qle_bool_iff in E.
    destruct (retarget_total p b d) as (a & Ea). rewrite Ea. cbn [bind].
    eexists. split; [reflexivity|]. cbn.
    repeat split. left. repeat split; try assumption.
    exists a. auto.
  - apply Qle_bool_false in E. cbn [bind].
    eexists. split; [reflexivity|]. cbn.
    repeat split. right. repeat split; assumption.
Qed.

Lemma track_fields (dt : Q) (p : Paddle) :
  _reaction_timer (track dt p) = _reaction_timer p
  /\ _next_reaction_at (track dt p) = _next_reaction_at p
  /\ _target_y (track dt p) = _target_y p
  /\ _aim_error (track dt p) = _aim_error p
  /\ p_speed (track dt p) = p_speed p
  /\ is_ai (track dt p) = is_ai p
  /\ rect_x (p_rect (track dt p)) = rect_x (p_rect p)
  /\ rect_w (p_rect (track dt p)) = rect_w (p_rect p)
  /\ rect_h (p_rect (track dt p)) = rect_h (p_rect p).
Proof. repeat split. Qed.

Lemma track_centery (dt : Q) (p : Paddle) :
  rect_h (p_rect p) = PADDLE_HEIGHT ->
  R.centery (p_rect (track dt p))
  = Z.min 550
      (Z.max 50
         (py_int
            (inject_Z (R.centery (p_rect p))
             + clamp ((_target_y p - inject_Z (R.centery (p_rect p)))
                      * AI_TRACK_DAMPING)
                     (- (inject_Z (p_speed p) * dt))
                     (inject_Z (p_speed p) * dt))%Q)).
Proof.
  intro Hh. unfold track. cbn [p_rect with_p_rect].
  set (c := py_int _).
  unfold R.centery, R.set_bottom, R.set_top, R.set_centery, R.set_y,
    R.top, R.bottom.
  cbn [rect_x rect_y rect_w rect_h]. rewrite Hh.
  unfold PADDLE_HEIGHT, SCREEN_HEIGHT. change (100 / 2) with 50. lia.
Qed.

(** The tracking step on a paddle within the bounds. *)
Lemma track_toward_target (dt : Q) (p : Paddle) :
  (0 <= dt)%Q -> 0 <= p_speed p -> paddle_in_bounds p ->
  rect_h (p_rect p) = PADDLE_HEIGHT ->
  let c := R.centery (p_rect p) in
  let c' := R.centery (p_rect (track dt p)) in
  ((inject_Z c <= _target_y p)%Q ->
   c <= c' /\ (inject_Z c' <= _target_y p)%Q)
  /\ ((_target_y p <= inject_Z c)%Q ->
      c' <= c /\ (_target_y p - 1 < inject_Z c')%Q)
  /\ (inject_Z (Z.abs (c' - c)) < inject_Z (p_speed p) * dt + 1)%Q.
Proof.
  intros Hdt Hs Hin Hh c c'.
  unfold c'. rewrite track_centery by exact Hh. fold c.
  set (m := (inject_Z (p_speed p) * dt)%Q).
  set (desired := ((_target_y p - inject_Z c) * AI_TRACK_DAMPING)%Q).
  set (step := clamp desired (- m)%Q m).
  assert (Hm : (0 <= m)%Q).
  { unfold m. apply Qmult_le_0_compat; [| exact Hdt].
    change 0%Q with (inject_Z 0). rewrite <- Zle_Qle. exact Hs. }
  assert (Hstep : (- m <= step <= m)%Q
                  /\ ((0 <= desired)%Q -> (0 <= step <= desired)%Q)
                  /\ ((desired <= 0)%Q -> (desired <= step <= 0)%Q)).
  { unfold step, clamp.
    destruct (py_max_spec (- m) (py_min m desired)) as (H1 & H2 & H3).
    destruct (py_min_spec m desired) as (H4 & H5 & H6).
    destruct H3 as [H3 | H3]; destruct H6 as [H6 | H6];
      repeat split; intros; lra. }
  destruct Hstep as (Hb & Hp & Hn).
  set (c1 := py_int (inject_Z c + step)).
  destruct (py_int_near (inject_Z c + step)) as (Hnear & _). fold c1 in Hnear.
  unfold paddle_in_bounds in Hin. fold c in Hin.
  unfold PADDLE_HEIGHT, SCREEN_HEIGHT in Hin.
  change (100 / 2) with 50 in Hin. change (600 - 50) with 550 in Hin.
  assert (Hdes : (desired == (_target_y p - inject_Z c) * (22 # 100))%Q)
    by reflexivity.
  assert (Hbetween : (c <= Z.min 550 (Z.max 50 c1) <= c1)
                     \/ (c1 <= Z.min 550 (Z.max 50 c1) <= c)) by lia.
  assert (Hq : forall x y : Z, x <= y -> (inject_Z x <= inject_Z y)%Q)
    by (intros x y H; rewrite <- Zle_Qle; exact H).
  split; [| split].
  - intro Ht. assert (Hd0 : (0 <= desired)%Q) by lra.
    destruct (Hp Hd0) as [Hs0 Hs1].
    assert (Hc1 : c <= c1).
    { assert (H : c - 1 < c1); [| lia].
      rewrite Zlt_Qlt. unfold Zminus. rewrite inject_Z_plus.
      change (inject_Z (- (1))) with (- (1))%Q. lra. }
    assert (Hc1t : (inject_Z c1 <= _target_y p)%Q).
    { destruct (py_int_near (inject_Z c + step)) as (_ & Hpos & _).
      fold c1 in Hpos. destruct Hpos as [_ Hle].
      - pose proof (Hq 0 c ltac:(lia)) as H0. change (inject_Z 0) with 0%Q in H0.
        lra.
      - lra. }
    split; [lia|].
    assert (Hle : Z.min 550 (Z.max 50 c1) <= c1) by lia.
    apply Hq in Hle. lra.
  - intro Ht. assert (Hd0 : (desired <= 0)%Q) by lra.
    destruct (Hn Hd0) as [Hs0 Hs1].
    assert (Hc1 : c1 <= c).
    { assert (H : c1 < c + 1); [| lia].
      rewrite Zlt_Qlt, inject_Z_plus. change (inject_Z 1) with 1%Q. lra. }
    split; [lia|].
    assert (Hge : c1 <= Z.min 550 (Z.max 50 c1)) by lia.
    apply Hq in Hge. lra.
  - destruct Hbetween as [[H1 H2] | [H1 H2]].
    + rewrite Z.abs_eq by lia.
      unfold Zminus. rewrite inject_Z_plus, inject_Z_opp.
      apply Hq in H2. lra.
    + rewrite Z.abs_neq by lia.
      rewrite Z.opp_sub_distr, Z.add_comm.
      rewrite inject_Z_plus, inject_Z_opp.
      apply Hq in H1. lra.
Qed.

(** The tracking step moves the centre by the truncated step. *)
Lemma track_moves (dt : Q) (p : Paddle) :
  (0 <= dt)%Q -> 0 <= p_speed p -> paddle_in_bounds p ->
  rect_h (p_rect p) = PADDLE_HEIGHT ->
  let c := R.centery (p_rect p) in
  let step := clamp ((_target_y p - inject_Z c) * AI_TRACK_DAMPING)
                    (- (inject_Z (p_speed p) * dt))
                    (inject_Z (p_speed p) * dt) in
  exists k : Z,
    R.centery (p_rect (track dt p))
    = Z.min (SCREEN_HEIGHT - PADDLE_HEIGHT / 2)
            (Z.max (PADDLE_HEIGHT / 2) (c + k))
    /\ (step - 1 < inject_Z k < step + 1)%Q
    /\ ((0 <= step)%Q -> 0 <= k)
    /\ ((step <= 0)%Q -> k <= 0)
    /\ ((1 <= step)%Q -> c < SCREEN_HEIGHT - PADDLE_HEIGHT / 2 ->
        c < R.centery (p_rect (track dt p)))
    /\ ((step <= - (1))%Q -> PADDLE_HEIGHT / 2 < c ->
        R.centery (p_rect (track dt p)) < c).
Proof.
  intros Hdt Hs Hin Hh c step.
  rewrite track_centery by exact Hh. fold c. fold step.
  unfold paddle_in_bounds in Hin. fold c in Hin.
  unfold PADDLE_HEIGHT, SCREEN_HEIGHT in *.
  change (100 / 2) with 50 in *. change (600 - 50) with 550 in *.
  set (c1 := py_int (inject_Z c + step)).
  destruct (py_int_near (inject_Z c + step)) as (Hnear & _). fold c1 in Hnear.
  exists (c1 - c).
  assert (Hk : (inject_Z (c1 - c) == inject_Z c1 - inject_Z c)%Q).
  { unfold Zminus. rewrite inject_Z_plus, inject_Z_opp. ring. }
  assert (Hpos : (0 <= step)%Q -> 0 <= c1 - c).
  { intro H0. assert (H : c - 1 < c1); [| lia].
    rewrite Zlt_Qlt. unfold Zminus. rewrite inject_Z_plus.
    change (inject_Z (- (1))) with (- (1))%Q. lra. }
  assert (Hneg : (step <= 0)%Q -> c1 - c <= 0).
  { intro H0. assert (H : c1 < c + 1); [| lia].
    rewrite Zlt_Qlt, inject_Z_plus. change (inject_Z 1) with 1%Q. lra. }
  split; [f_equal; f_equal; lia|].
  split; [rewrite Hk; lra|].
  split; [exact Hpos|]. split; [exact Hneg|].
  split.
  - intros H1 Hroom.
    assert (H : c < c1); [| lia].
    rewrite Zlt_Qlt. lra.
  - intros H1 Hroom.
    assert (H : c1 < c); [| lia].
    rewrite Zlt_Qlt. lra.
Qed.

(** X7.  For [dt >= 0], [update_ai] moves the centre of a paddle that is
    within the bounds by a whole number [k] of pixels, limited by the
    bounds, where [k] differs by less than one from the step
    [clamp(0.22 * (target - centre), -speed * dt, speed * dt)] taken with
    the (possibly re-aimed) target and has the step's sign: the paddle
    moves toward its target whenever the step is a pixel or more and
    there is room, it never moves away from the target, and it ends at
    most at the target when moving down and less than one pixel past it
    when moving up. *)
Theorem update_ai_tracks_target (dt : Q) (b : Ball) (d : Draws)
        (p : Paddle) :
  (0 <= dt)%Q -> 0 <= p_speed p -> paddle_in_bounds p ->
  rect_h (p_rect p) = PADDLE_HEIGHT ->
  exists p' (k : Z),
    Paddle_update_ai dt b d p = Ok p'
    /\ let c := R.centery (p_rect p) in
       let c' := R.centery (p_rect p') in
       let step := clamp ((_target_y p' - inject_Z c) * AI_TRACK_DAMPING)
                         (- (inject_Z (p_speed p) * dt))
                         (inject_Z (p_speed p) * dt) in
       c' = Z.min (SCREEN_HEIGHT - PADDLE_HEIGHT / 2)
                  (Z.max (PADDLE_HEIGHT / 2) (c + k))
       /\ (step - 1 < inject_Z k < step + 1)%Q
       /\ ((0 <= step)%Q -> 0 <= k)
       /\ ((step <= 0)%Q -> k <= 0)
       /\ ((1 <= step)%Q -> c < SCREEN_HEIGHT - PADDLE_HEIGHT / 2 -> c < c')
       /\ ((step <= - (1))%Q -> PADDLE_HEIGHT / 2 < c -> c' < c)
       /\ ((inject_Z c <= _target_y p')%Q ->
           c <= c' /\ (inject_Z c' <= _target_y p')%Q)
       /\ ((_target_y p' <= inject_Z c)%Q ->
           c' <= c /\ (_target_y p' - 1 < inject_Z c')%Q)
       /\ (inject_Z (Z.abs (c' - c)) < inject_Z (p_speed p) * dt + 1)%Q.
Proof.
  intros Hdt Hs Hin Hh.
  destruct (update_ai_shape dt b d p) as (p1 & E & Hr & Hsp & _).
  assert (Hin1 : paddle_in_bounds p1)
    by (unfold paddle_in_bounds; rewrite Hr; exact Hin).
  assert (Hs1 : 0 <= p_speed p1) by (rewrite Hsp; exact Hs).
  assert (Hh1 : rect_h (p_rect p1) = PADDLE_HEIGHT) by (rewrite Hr; exact Hh).
  destruct (track_moves dt p1 Hdt Hs1 Hin1 Hh1)
    as (k & Hc & Hk & Hpos & Hneg & Hdown & Hup).
  pose proof (track_toward_target dt p1 Hdt Hs1 Hin1 Hh1) as Hold.
  exists (track dt p1), k. split; [exact E|].
  destruct (track_fields dt p1) as (_ & _ & Ht & _).
  cbv zeta in *. rewrite Ht. rewrite Hr, Hsp in *.
  destruct Hold as (H1 & H2 & H3).
  repeat (split; [assumption|]). assumption.
Qed.

Lemma update_ai_tracks_target_witness :
  exists p',
    Paddle_update_ai (16 # 1000) slow_ball draws0 paddle_chasing = Ok p'
    /\ R.centery (p_rect paddle_chasing) = 300
    /\ 300 < R.centery (p_rect p').
Proof.
  destruct (update_ai_tracks_target (16 # 1000) slow_ball draws0
              paddle_chasing)
    as (p' & k & E & _ & _ & _ & _ & Hdown & _);
    [discriminate | discriminate | split; discriminate | reflexivity |].
  exists p'. split; [exact E|]. split; [reflexivity|].
  injection E as <-. apply Hdown; [discriminate | reflexivity].
Defined.

Example paddle_chasing_step :
  exists p',
    Paddle_update_ai (16 # 1000) slow_ball draws0 paddle_chasing = Ok p'
    /\ R.centery (p_rect p') = 306.
Proof. eexists; split; reflexivity. Qed.

(** X8.  For [dt >= 0], a timer that is not negative and a positive
    reaction-delay draw, [update_ai] leaves the reaction timer in
    [[0, _next_reaction_at)]: when the accumulated timer reaches the
    reaction time it restarts at 0 with the drawn delay, otherwise it
    advances by [dt * 1000] and the delay, the target and the aim error
    are kept. *)
Theorem reaction_timer_invariant (dt : Q) (b : Ball) (d : Draws)
        (p : Paddle) :
  (0 <= dt)%Q -> (0 < reaction_delay d)%Q -> (0 <= _reaction_timer p)%Q ->
  exists p',
    Paddle_update_ai dt b d p = Ok p'
    /\ (0 <= _reaction_timer p' < _next_reaction_at p')%Q
    /\ ((_next_reaction_at p <= _reaction_timer p + dt * 1000)%Q ->
        _reaction_timer p' = 0%Q /\ _next_reaction_at p' = reaction_delay d)
    /\ ((_reaction_timer p + dt * 1000 < _next_reaction_at p)%Q ->
        _reaction_timer p' = (_reaction_timer p + dt * 1000)%Q
        /\ _next_reaction_at p' = _next_reaction_at p
        /\ _target_y p' = _target_y p
        /\ _aim_error p' = _aim_error p).
Proof.
  intros Hdt Hdelay Htimer.
  destruct (update_ai_shape dt b d p) as (p1 & E & _ & _ & _ & Hcases).
  exists (track dt p1). split; [exact E|].
  destruct (track_fields dt p1) as (-> & -> & -> & -> & _).
  destruct Hcases as [(Hfire & -> & -> & _) | (Hwait & -> & -> & -> & ->)].
  - split; [lra|]. split; [auto|]. intro. lra.
  - split; [lra|]. split; [intro; lra | auto].
Qed.

Lemma reaction_timer_invariant_witness :
  exists p',
    Paddle_update_ai (16 # 1000) slow_ball draws0 paddle_r0 = Ok p'
    /\ (0 <= _reaction_timer p' < _next_reaction_at p')%Q.
Proof.
  destruct (reaction_timer_invariant (16 # 1000) slow_ball draws0 paddle_r0)
    as (p' & E & H & _); [discriminate | reflexivity | discriminate |].
  exists p'. split; [exact E | exact H].
Defined.

Lemma reflect_off_bounds_range (y lo hi : Q) :
  (lo < hi)%Q ->
  exists r, reflect_off_bounds y lo hi = Ok r /\ (lo <= r <= hi)%Q.
Proof.
  intro Hlt. unfold reflect_off_bounds.
  assert (E : Qle_bool (hi - lo) 0 = false) by (apply Qle_bool_false; lra).
  rewrite E.
  destruct (py_mod_pos (y - lo) (2 * (hi - lo))) as (t & Ht & Hrange & _);
    [lra|].
  rewrite Ht. cbn [bind]. eexists; split; [reflexivity|].
  destruct (Qltb (hi - lo) t) eqn:Ef;
    [apply Qltb_true in Ef | apply Qltb_false in Ef]; lra.
Qed.

Lemma rand_aim_error_scaled (d : Draws) (k : Q) :
  (0 <= aim_magnitude d)%Q -> (0 <= k <= 1)%Q ->
  (- aim_magnitude d <= _rand_aim_error d * k <= aim_magnitude d)%Q
  /\ (- (aim_magnitude d * k) <= _rand_aim_error d * k
      <= aim_magnitude d * k)%Q.
Proof.
  intros Hm [Hk0 Hk1]. unfold _rand_aim_error.
  assert (H0 : (0 <= aim_magnitude d * k)%Q)
    by (apply Qmult_le_0_compat; assumption).
  assert (H1 : (aim_magnitude d * k <= aim_magnitude d * 1)%Q).
  { rewrite !(Qmult_comm (aim_magnitude d)).
    apply Qmult_le_compat_r; assumption. }
  destruct (aim_negative d).
  - assert (E : (aim_magnitude d * - (1) * k == - (aim_magnitude d * k))%Q)
      by ring.
    rewrite E. split; split; lra.
  - assert (E : (aim_magnitude d * 1 * k == aim_magnitude d * k)%Q) by ring.
    rewrite E. split; split; lra.
Qed.

(** The two branches of the re-aiming. *)
Lemma retarget_cases (p : Paddle) (b : Ball) (d : Draws) :
  (0 <= aim_magnitude d)%Q ->
  exists aim t,
    retarget p b d = Ok (aim, t)
    /\ (- aim_magnitude d <= aim <= aim_magnitude d)%Q
    /\ ((0 < velocity_x b)%Q ->
        exists r, (inject_Z (BALL_SIZE / 2) <= r
                   <= inject_Z (SCREEN_HEIGHT - BALL_SIZE / 2))%Q
                  /\ t = (r + aim)%Q)
    /\ ((velocity_x b <= 0)%Q ->
        (- (aim_magnitude d * (3 # 10)) <= aim
         <= aim_magnitude d * (3 # 10))%Q
        /\ t = (inject_Z SCREEN_HEIGHT / 2 + aim)%Q).
Proof.
  intro Hm. unfold retarget.
  destruct (Qltb 0 (velocity_x b)) eqn:E;
    [apply Qltb_true in E | apply Qltb_false in E].
  - destruct (time_to_reach_total p b) as (ttr & ->). cbn [bind].
    match goal with
    | |- context [reflect_off_bounds ?y ?lo ?hi] =>
        destruct (reflect_off_bounds_range y lo hi) as (r & -> & Hr);
          [reflexivity|]
    end.
    cbn [bind]. rewrite py_truediv_total by (intro H; discriminate H).
    cbn [bind]. eexists; eexists. split; [reflexivity|].
    assert (Hk : (0 <= py_min 1 (Qabs (velocity_x b)
                                 / inject_Z BALL_SPEED_MAX) <= 1)%Q).
    { assert (Hratio : (0 <= Qabs (velocity_x b) / inject_Z BALL_SPEED_MAX)%Q).
      { apply Qle_shift_div_l; [reflexivity|].
        rewrite Qmult_0_l. apply Qabs_nonneg. }
      destruct (py_min_spec 1 (Qabs (velocity_x b) / inject_Z BALL_SPEED_MAX))
        as (H1 & H2 & [H3 | H3]); lra. }
    destruct (rand_aim_error_scaled d _ Hm Hk) as [Ha _].
    split; [exact Ha|]. split.
    + intros _. exists r. split; [exact Hr | reflexivity].
    + intro Hle. lra.
  - rewrite py_truediv_total by (intro H; discriminate H). cbn [bind].
    eexists; eexists. split; [reflexivity|].
    destruct (rand_aim_error_scaled d (3 # 10) Hm) as [Ha Hb];
      [split; discriminate|].
    split; [exact Ha|]. split.
    + intro Hpos. lra.
    + intros _. split; [exact Hb | reflexivity].
Qed.

(** X9.  When the reaction timer fires, [update_ai] re-aims within the
    drawn error magnitude [m >= 0]: with the ball moving toward the AI
    paddle the new target is within [m] of the band
    [[BALL_SIZE // 2, SCREEN_HEIGHT - BALL_SIZE // 2]] in which a ball
    centre can be, and with the ball not moving toward it the new target
    is within [0.3 * m] of the screen's vertical centre. *)
Theorem update_ai_target_bounds (dt : Q) (b : Ball) (d : Draws)
        (p : Paddle) :
  (0 <= aim_magnitude d)%Q ->
  (_next_reaction_at p <= _reaction_timer p + dt * 1000)%Q ->
  exists p',
    Paddle_update_ai dt b d p = Ok p'
    /\ (- aim_magnitude d <= _aim_error p' <= aim_magnitude d)%Q
    /\ ((0 < velocity_x b)%Q ->
        (inject_Z (BALL_SIZE / 2) - aim_magnitude d <= _target_y p'
         <= inject_Z (SCREEN_HEIGHT - BALL_SIZE / 2) + aim_magnitude d)%Q)
    /\ ((velocity_x b <= 0)%Q ->
        (inject_Z SCREEN_HEIGHT / 2 - aim_magnitude d * (3 # 10)
         <= _target_y p'
         <= inject_Z SCREEN_HEIGHT / 2 + aim_magnitude d * (3 # 10))%Q).
Proof.
  intros Hm Hfire.
  destruct (update_ai_shape dt b d p) as (p1 & E & _ & _ & _ & Hcases).
  exists (track dt p1). split; [exact E|].
  destruct (track_fields dt p1) as (_ & _ & -> & -> & _).
  destruct Hcases as [(_ & _ & _ & a & Ea & -> & ->) | (Hwait & _)]; [| lra].
  destruct (retarget_cases p b d Hm) as (aim & t & Er & Ha & Hto & Haway).
  rewrite Er in Ea. injection Ea as <-. cbn [fst snd].
  split; [exact Ha|]. split.
  - intro Hpos. destruct (Hto Hpos) as (r & Hr & ->). lra.
  - intro Hle. destruct (Haway Hle) as (Hb & ->). lra.
Qed.

Lemma update_ai_target_bounds_witness :
  (0 < velocity_x slow_ball)%Q
  /\ exists p',
      Paddle_update_ai (16 # 1000) slow_ball draws0 paddle_about_to_react
        = Ok p'
      /\ (inject_Z (BALL_SIZE / 2) - 20 <= _target_y p'
          <= inject_Z (SCREEN_HEIGHT - BALL_SIZE / 2) + 20)%Q.
Proof.
  split; [reflexivity|].
  destruct (update_ai_target_bounds (16 # 1000) slow_ball draws0
              paddle_about_to_react)
    as (p' & E & _ & H & _); [discriminate | discriminate |].
  exists p'. split; [exact E | apply H; reflexivity].
Defined.

(** ** Serving and waiting *)

Lemma length_squared_zero (b : Ball) :
  (velocity_x b == 0)%Q -> (velocity_y b == 0)%Q ->
  Qeq_bool (length_squared b) 0 = true.
Proof.
  intros Hx Hy. apply Qeq_bool_iff. unfold length_squared.
  rewrite Hx, Hy. reflexivity.
Qed.

(** X10.  A stationary ball whose serve time has not come is left
    exactly as it is by [Ball.update], which returns 0: nothing moves
    during the serve delay. *)
Theorem update_waits_for_serve (cos sin : Q -> Q) (dt : Q) (lp rp : Paddle)
        (now : Z) (d : Draws) (b : Ball) :
  (velocity_x b == 0)%Q -> (velocity_y b == 0)%Q -> now < _serve_time b ->
  Ball_update cos sin dt lp rp now d b = Ok (b, 0).
Proof.
  intros Hx Hy Hnow.
  assert (Hs : Ball_serve_if_ready cos sin now (serve_angle d) b = b).
  { unfold Ball_serve_if_ready. apply Z.leb_gt in Hnow.
    rewrite Hnow, andb_false_r. reflexivity. }
  unfold Ball_update. rewrite Hs, length_squared_zero by assumption.
  reflexivity.
Qed.

Lemma update_waits_for_serve_witness :
  Ball_update cos_taylor sin_taylor (16 # 1000) paddle_l0 paddle_r0 2000
              draws0 ball_waiting = Ok (ball_waiting, 0).
Proof.
  apply update_waits_for_serve; reflexivity.
Defined.

Lemma Qsquare_nonneg (q : Q) : (0 <= q * q)%Q.
Proof.
  destruct (Qlt_le_dec q 0) as [Hn | Hp].
  - setoid_replace (q * q)%Q with ((- q) * (- q))%Q by ring.
    apply Qmult_le_0_compat; lra.
  - apply Qmult_le_0_compat; lra.
Qed.

Lemma Qsquare_pos (q : Q) : ~ (q == 0)%Q -> (0 < q * q)%Q.
Proof.
  intro Hnz. destruct (Qlt_le_dec q 0) as [Hn | Hp].
  - setoid_replace (q * q)%Q with ((- q) * (- q))%Q by ring.
    apply Qmult_lt_0_compat; lra.
  - apply Qmult_lt_0_compat; lra.
Qed.

(** Scaling a number of [[-1, 1]] by a speed. *)
Lemma scale_bound (s c : Q) :
  (0 <= s)%Q -> (- (1) <= c <= 1)%Q -> (- s <= s * c <= s)%Q.
Proof.
  intros Hs [Hlo Hhi].
  assert (H1 : (0 <= s * (1 - c))%Q) by (apply Qmult_le_0_compat; lra).
  assert (H2 : (0 <= s * (1 + c))%Q) by (apply Qmult_le_0_compat; lra).
  setoid_replace (s * (1 - c))%Q with (s - s * c)%Q in H1 by ring.
  setoid_replace (s * (1 + c))%Q with (s + s * c)%Q in H2 by ring.
  split; lra.
Qed.

(** X11.  A stationary ball whose serve time has come, with a positive
    speed and a launch angle at which [0 < cos <= 1] and [-1 <= sin <= 1],
    is put in flight by [serve_if_ready] from where it is: its velocity
    is not zero, the horizontal component points in the stored serve
    direction, and neither component exceeds [speed] in magnitude; the
    position, the speed and the serve fields are unchanged. *)
Theorem serve_puts_ball_in_flight (cos sin : Q -> Q) (now : Z) (angle : Q)
        (b : Ball) :
  (velocity_x b == 0)%Q -> (velocity_y b == 0)%Q -> _serve_time b <= now ->
  0 < b_speed b ->
  (0 < cos angle <= 1)%Q -> (- (1) <= sin angle <= 1)%Q ->
  let b' := Ball_serve_if_ready cos sin now angle b in
  b_rect b' = b_rect b /\ b_speed b' = b_speed b
  /\ _serve_dir b' = _serve_dir b /\ _serve_time b' = _serve_time b
  /\ ~ (length_squared b' == 0)%Q
  /\ (0 <= _serve_dir b ->
      (0 < velocity_x b' <= inject_Z (b_speed b))%Q)
  /\ (_serve_dir b < 0 ->
      (- inject_Z (b_speed b) <= velocity_x b' < 0)%Q)
  /\ (- inject_Z (b_speed b) <= velocity_y b' <= inject_Z (b_speed b))%Q.
Proof.
  intros Hx Hy Hnow Hsp [Hc0 Hc1] Hsin b'. unfold b', Ball_serve_if_ready.
  rewrite length_squared_zero by assumption.
  apply Z.leb_le in Hnow. rewrite Hnow. cbn [andb].
  cbn [with_velocity b_rect b_speed _serve_dir _serve_time velocity_x
       velocity_y].
  assert (Hs0 : (0 < inject_Z (b_speed b))%Q).
  { change 0%Q with (inject_Z 0). rewrite <- Zlt_Qlt. exact Hsp. }
  set (sp := inject_Z (b_speed b)) in *.
  assert (Hxpos : (0 < sp * cos angle)%Q)
    by (apply Qmult_lt_0_compat; assumption).
  destruct (scale_bound sp (cos angle)) as [Hx1 Hx2]; [lra | lra |].
  destruct (scale_bound sp (sin angle)) as [Hy1 Hy2]; [lra | lra |].
  assert (Habs : (Qabs (sp * cos angle) == sp * cos angle)%Q)
    by (apply Qabs_pos; lra).
  assert (Hvx : (0 <= _serve_dir b ->
                 (copysign (sp * cos angle) (_serve_dir b)
                  == sp * cos angle)%Q)
                /\ (_serve_dir b < 0 ->
                    (copysign (sp * cos angle) (_serve_dir b)
                     == - (sp * cos angle))%Q)).
  { unfold copysign. split; intro Hd.
    - destruct (_serve_dir b <? 0) eqn:E;
        [apply Z.ltb_lt in E; lia | exact Habs].
    - destruct (_serve_dir b <? 0) eqn:E;
        [rewrite Habs; reflexivity | apply Z.ltb_ge in E; lia]. }
  destruct Hvx as [Hpos Hneg].
  assert (Hfly : ~ (length_squared
                      (with_velocity
                         (copysign (sp * cos angle) (_serve_dir b))
                         (sp * sin angle) b) == 0)%Q).
  { intro Hzero. unfold length_squared in Hzero.
    cbn [with_velocity velocity_x velocity_y] in Hzero.
    assert (Hnz : ~ (copysign (sp * cos angle) (_serve_dir b) == 0)%Q).
    { destruct (Z_lt_le_dec (_serve_dir b) 0) as [Hd | Hd].
      - rewrite (Hneg Hd). lra.
      - rewrite (Hpos Hd). lra. }
    pose proof (Qsquare_pos _ Hnz) as H1.
    pose proof (Qsquare_nonneg (sp * sin angle)) as H2.
    lra. }
  split; [reflexivity|]. split; [reflexivity|]. split; [reflexivity|].
  split; [reflexivity|]. split; [exact Hfly|].
  split; [intro Hd; rewrite (Hpos Hd); split; lra|].
  split; [intro Hd; rewrite (Hneg Hd); split; lra|].
  split; lra.
Qed.

Lemma serve_puts_ball_in_flight_witness :
  ~ (length_squared (Ball_serve_if_ready cos_taylor sin_taylor 2800 (1 # 4)
                                         ball_waiting) == 0)%Q
  /\ (0 < velocity_x (Ball_serve_if_ready cos_taylor sin_taylor 2800 (1 # 4)
                                          ball_waiting)
       <= inject_Z BALL_SPEED)%Q.
Proof.
  destruct (serve_puts_ball_in_flight cos_taylor sin_taylor 2800 (1 # 4)
              ball_waiting)
    as (_ & _ & _ & _ & Hfly & Hpos & _);
    [reflexivity | reflexivity | discriminate | reflexivity
    | split; [reflexivity | discriminate]
    | split; discriminate |].
  split; [exact Hfly | apply Hpos; discriminate].
Defined.

(** ** Paddle hits *)

Lemma cos_taylor_pos (a : Q) :
  (- (9 # 10) <= a <= 9 # 10)%Q -> (0 < cos_taylor a)%Q.
Proof.
  intros [Hlo Hhi]. unfold cos_taylor.
  assert (Hsq : (0 <= a * a <= 81 # 100)%Q).
  { split.
    - destruct (Qlt_le_dec a 0) as [Hn | Hp].
      + setoid_replace (a * a)%Q with ((- a) * (- a))%Q by ring.
        apply Qmult_le_0_compat; lra.
      + apply Qmult_le_0_compat; lra.
    - assert (H : (0 <= ((9 # 10) - a) * ((9 # 10) + a))%Q)
        by (apply Qmult_le_0_compat; lra).
      setoid_replace (((9 # 10) - a) * ((9 # 10) + a))%Q
        with ((81 # 100) - a * a)%Q in H by ring.
      lra. }
  assert (H4 : (0 <= a * a * a * a)%Q).
  { setoid_replace (a * a * a * a)%Q with ((a * a) * (a * a))%Q by ring.
    apply Qmult_le_0_compat; lra. }
  set (q := (a * a * a * a)%Q) in *. set (s := (a * a)%Q) in *.
  setoid_replace (1 - s / 2 + q / 24)%Q
    with (1 - s * (1 # 2) + q * (1 # 24))%Q by field.
  lra.
Qed.

(** A bounce keeps the ball heading toward the side of the paddle it
    hit and leaves it flush against that paddle. *)
Lemma bounce_heading (cos sin : Q -> Q) (p : Paddle)
        (is_left : bool) (j : Q) (b : Ball) :
  (forall a, (- (9 # 10) <= a <= 9 # 10)%Q -> (0 < cos a)%Q) ->
  0 <= b_speed b ->
  exists b',
    _bounce_off_paddle cos sin p is_left j b = Ok b'
    /\ (is_left = true ->
        (velocity_x b' < 0)%Q /\ R.left (b_rect b') = R.right (p_rect p))
    /\ (is_left = false ->
        (0 < velocity_x b')%Q /\ R.right (b_rect b') = R.left (p_rect p))
    /\ R.colliderect (b_rect b') (p_rect p) = false.
Proof.
  intros Hcos Hs. unfold _bounce_off_paddle.
  change (py_truediv (inject_Z PADDLE_HEIGHT) 2) with (Ok (100 # 2)%Q).
  cbn [bind]. rewrite py_truediv_total by (intro H; discriminate H).
  cbn [bind]. eexists; split; [reflexivity|].
  set (offset := clamp _ (- (1))%Q 1%Q).
  assert (Hoff : (- (1) <= offset <= 1)%Q)
    by (apply clamp_in_range; discriminate).
  assert (Hc : (0 < cos (offset * (9 # 10)))%Q) by (apply Hcos; lra).
  set (speed := Z.min BALL_SPEED_MAX (b_speed b + BALL_SPEED_INCREMENT)).
  assert (Hsp : (0 < inject_Z speed)%Q).
  { change 0%Q with (inject_Z 0). rewrite <- Zlt_Qlt.
    unfold speed, BALL_SPEED_MAX, BALL_SPEED_INCREMENT. lia. }
  assert (Hprod : (0 < inject_Z speed * cos (offset * (9 # 10)))%Q)
    by (apply Qmult_lt_0_compat; assumption).
  cbn [velocity_x b_rect].
  split; [| split].
  - intros ->. cbn [negb]. split.
    + setoid_replace (inject_Z (-1) * inject_Z speed
                      * cos (offset * (9 # 10)))%Q
        with (- (inject_Z speed * cos (offset * (9 # 10))))%Q
        by (change (inject_Z (-1)) with (- (1))%Q; ring).
      lra.
    + reflexivity.
  - intros ->. cbn [negb]. split.
    + setoid_replace (inject_Z 1 * inject_Z speed
                      * cos (offset * (9 # 10)))%Q
        with (inject_Z speed * cos (offset * (9 # 10)))%Q
        by (change (inject_Z 1) with 1%Q; ring).
      exact Hprod.
    + unfold R.right, R.set_right, R.set_x. cbn. lia.
  - destruct is_left; apply colliderect_x_apart.
    + left. unfold R.set_left, R.set_x, R.right. cbn. lia.
    + right. unfold R.set_right, R.set_x, R.left. cbn. lia.
Qed.

(** X12.  When [cos] is positive on [[-0.9, 0.9]] and the ball's speed
    is not negative, a bounce puts the ball flush against the inner edge
    of the paddle it hit, so that the two rectangles no longer overlap,
    and gives it a horizontal velocity that points toward that paddle's
    side of the screen: negative off the left paddle ([direction] is -1
    when [is_left]), positive off the right paddle. *)
Theorem bounce_keeps_heading (cos sin : Q -> Q) (p : Paddle)
        (is_left : bool) (j : Q) (b : Ball) :
  (forall a, (- (9 # 10) <= a <= 9 # 10)%Q -> (0 < cos a)%Q) ->
  0 <= b_speed b ->
  exists b',
    _bounce_off_paddle cos sin p is_left j b = Ok b'
    /\ (is_left = true ->
        (velocity_x b' < 0)%Q /\ R.left (b_rect b') = R.right (p_rect p))
    /\ (is_left = false ->
        (0 < velocity_x b')%Q /\ R.right (b_rect b') = R.left (p_rect p))
    /\ R.colliderect (b_rect b') (p_rect p) = false.
Proof. exact (bounce_heading cos sin p is_left j b). Qed.

Lemma bounce_keeps_heading_witness :
  exists b',
    _bounce_off_paddle cos_taylor sin_taylor paddle_l0 true 0 ball_666
      = Ok b'
    /\ (velocity_x b' < 0)%Q
    /\ R.left (b_rect b') = R.right (p_rect paddle_l0)
    /\ R.colliderect (b_rect b') (p_rect paddle_l0) = false.
Proof.
  destruct (bounce_keeps_heading cos_taylor sin_taylor paddle_l0 true 0
              ball_666 cos_taylor_pos)
    as (b' & E & Hl & _ & Hc); [discriminate|].
  exists b'. split; [exact E|].
  destruct (Hl eq_refl) as [Hv Hx]. auto.
Defined.

Lemma collide_paddles_cases (cos sin : Q -> Q) (lp rp : Paddle) (j : Q)
      (b : Ball) :
  (R.colliderect (b_rect b) (p_rect lp) && Qltb (velocity_x b) 0 = true
   /\ collide_paddles cos sin lp rp j b
      = _bounce_off_paddle cos sin lp true j b)
  \/ (R.colliderect (b_rect b) (p_rect lp) && Qltb (velocity_x b) 0 = false
      /\ R.colliderect (b_rect b) (p_rect rp) && Qltb 0 (velocity_x b) = true
      /\ collide_paddles cos sin lp rp j b
         = _bounce_off_paddle cos sin rp false j b)
  \/ (R.colliderect (b_rect b) (p_rect lp) && Qltb (velocity_x b) 0 = false
      /\ R.colliderect (b_rect b) (p_rect rp) && Qltb 0 (velocity_x b) = false
      /\ collide_paddles cos sin lp rp j b = Ok b).
Proof.
  unfold collide_paddles.
  destruct (R.colliderect (b_rect b) (p_rect lp) && Qltb (velocity_x b) 0);
    [left; auto|].
  destruct (R.colliderect (b_rect b) (p_rect rp) && Qltb 0 (velocity_x b));
    right; [left | right]; auto.
Qed.

(** X13.  When [cos] is positive on [[-0.9, 0.9]] and the speed is not
    negative, [Ball.update] never reverses the horizontal direction of a
    ball that is in flight: walls leave [velocity.x] alone, and a paddle
    is hit only by a ball moving toward its side, which the bounce sends
    on toward that side. *)
Theorem update_keeps_heading (cos sin : Q -> Q) (dt : Q) (lp rp : Paddle)
        (now : Z) (d : Draws) (b : Ball) :
  (forall a, (- (9 # 10) <= a <= 9 # 10)%Q -> (0 < cos a)%Q) ->
  0 <= b_speed b ->
  ~ (length_squared b == 0)%Q ->
  exists b' sd,
    Ball_update cos sin dt lp rp now d b = Ok (b', sd)
    /\ ((velocity_x b < 0)%Q -> (velocity_x b' < 0)%Q)
    /\ ((0 < velocity_x b)%Q -> (0 < velocity_x b')%Q)
    /\ ((velocity_x b == 0)%Q -> (velocity_x b' == 0)%Q).
Proof.
  intros Hcos Hs Hfly. apply Qeq_bool_false in Hfly.
  assert (Hserve : Ball_serve_if_ready cos sin now (serve_angle d) b = b).
  { unfold Ball_serve_if_ready. rewrite Hfly. reflexivity. }
  assert (Hfly' : Qeq_bool (length_squared
                    (Ball_serve_if_ready cos sin now (serve_angle d) b)) 0
                  = false) by (rewrite Hserve; exact Hfly).
  destruct (Ball_update_in_flight cos sin dt lp rp now d b Hfly')
    as (b' & Ecol & Eupd).
  exists b', (score_signal b'). split; [exact Eupd|].
  rewrite Hserve in Ecol.
  set (b3 := collide_walls (move dt b)) in *.
  assert (Hvx : velocity_x b3 = velocity_x b).
  { unfold b3, collide_walls. repeat destruct (_ <=? _); reflexivity. }
  assert (Hsp : b_speed b3 = b_speed b).
  { unfold b3, collide_walls. repeat destruct (_ <=? _); reflexivity. }
  destruct (collide_paddles_cases cos sin lp rp (bounce_jitter d) b3)
    as [(Hc & E) | [(_ & Hc & E) | (_ & _ & E)]];
    rewrite E in Ecol.
  - apply andb_true_iff in Hc. destruct Hc as [_ Hneg].
    apply Qltb_true in Hneg. rewrite Hvx in Hneg.
    destruct (bounce_heading cos sin lp true (bounce_jitter d) b3 Hcos)
      as (b'' & E'' & Hl & _); [lia|].
    rewrite Ecol in E''. injection E'' as <-.
    destruct (Hl eq_refl) as [Hv _].
    repeat split; intros; lra.
  - apply andb_true_iff in Hc. destruct Hc as [_ Hpos].
    apply Qltb_true in Hpos. rewrite Hvx in Hpos.
    destruct (bounce_heading cos sin rp false (bounce_jitter d) b3 Hcos)
      as (b'' & E'' & _ & Hr & _); [lia|].
    rewrite Ecol in E''. injection E'' as <-.
    destruct (Hr eq_refl) as [Hv _].
    repeat split; intros; lra.
  - injection Ecol as <-. rewrite Hvx. repeat split; intros; lra.
Qed.

Lemma update_keeps_heading_witness :
  exists b' sd,
    Ball_update cos_taylor sin_taylor (16 # 1000) paddle_l0 paddle_r0 0
                draws0 ball_at_right_paddle = Ok (b', sd)
    /\ (0 < velocity_x b')%Q
    /\ b_speed b' = BALL_SPEED + BALL_SPEED_INCREMENT.
Proof.
  destruct (update_keeps_heading cos_taylor sin_taylor (16 # 1000)
              paddle_l0 paddle_r0 0 draws0 ball_at_right_paddle
              cos_taylor_pos)
    as (b' & sd & E & _ & Hpos & _); [discriminate | discriminate |].
  exists b', sd. split; [exact E|]. split; [apply Hpos; reflexivity|].
  injection E as <- _. reflexivity.
Defined.

(** ** Invariants of the ball *)

Lemma collide_walls_inside (c : Ball) :
  rect_h (b_rect c) = BALL_SIZE ->
  0 <= R.top (b_rect (collide_walls c))
  /\ R.bottom (b_rect (collide_walls c)) <= SCREEN_HEIGHT
  /\ rect_h (b_rect (collide_walls c)) = rect_h (b_rect c)
  /\ b_speed (collide_walls c) = b_speed c.
Proof.
  destruct c as [[x y w h] vx vy sp sd st].
  unfold collide_walls, R.top, R.bottom, SCREEN_HEIGHT, BALL_SIZE.
  cbn [b_rect rect_y rect_h]. intros ->.
  destruct (y <=? 0) eqn:Et.
  - cbn. lia.
  - apply Z.leb_gt in Et. destruct (600 <=? y + 14) eqn:Eb.
    + cbn. lia.
    + apply Z.leb_gt in Eb. cbn. lia.
Qed.

Lemma Ball_update_ball_ok (cos sin : Q -> Q) (dt : Q) (lp rp : Paddle)
      (now : Z) (d : Draws) (b : Ball) :
  ball_ok b ->
  exists b' sd,
    Ball_update cos sin dt lp rp now d b = Ok (b', sd)
    /\ rect_w (b_rect b') = BALL_SIZE /\ rect_h (b_rect b') = BALL_SIZE
    /\ 0 <= R.top (b_rect b') /\ R.bottom (b_rect b') <= SCREEN_HEIGHT
    /\ BALL_SPEED <= b_speed b' <= BALL_SPEED_MAX
    /\ (sd = 0 -> 0 <= R.right (b_rect b')
                  /\ R.left (b_rect b') <= SCREEN_WIDTH).
Proof.
  intros (Hw & Hh & Ht & Hb & Hr & Hl & Hsp).
  set (b1 := Ball_serve_if_ready cos sin now (serve_angle d) b).
  assert (H1 : b_rect b1 = b_rect b /\ b_speed b1 = b_speed b).
  { unfold b1, Ball_serve_if_ready. destruct (_ && _); split; reflexivity. }
  destruct H1 as [Hr1 Hs1].
  destruct (Qeq_bool (length_squared b1) 0) eqn:E.
  - exists b1, 0. rewrite (Ball_update_waiting cos sin dt lp rp now d b E).
    fold b1. rewrite Hr1, Hs1. repeat split; assumption || lia.
  - destruct (Ball_update_in_flight cos sin dt lp rp now d b E)
      as (b' & Ecol & Eupd).
    exists b', (score_signal b'). split; [exact Eupd|].
    fold b1 in Ecol. set (b3 := collide_walls (move dt b1)) in *.
    assert (Hh2 : rect_h (b_rect (move dt b1)) = BALL_SIZE)
      by (cbn; rewrite Hr1; exact Hh).
    destruct (collide_walls_inside (move dt b1) Hh2) as (Ht3 & Hb3 & Hh3 & Hs3).
    destruct (collide_walls_x (move dt b1)) as [_ Hw3]. fold b3 in Ht3, Hb3, Hh3, Hs3, Hw3.
    assert (Hw3' : rect_w (b_rect b3) = BALL_SIZE)
      by (rewrite Hw3; cbn; rewrite Hr1; exact Hw).
    assert (Hs3' : b_speed b3 = b_speed b)
      by (rewrite Hs3; cbn; exact Hs1).
    destruct (collide_paddles_ok cos sin lp rp (bounce_jitter d) b3)
      as (b'' & E'' & Hy & Hhh & Hww & _).
    rewrite Ecol in E''. injection E'' as <-.
    assert (Hspeed : b_speed b' = b_speed b3
                     \/ b_speed b'
                        = Z.min BALL_SPEED_MAX
                                (b_speed b3 + BALL_SPEED_INCREMENT)).
    { destruct (collide_paddles_cases cos sin lp rp (bounce_jitter d) b3)
        as [(_ & Ec) | [(_ & _ & Ec) | (_ & _ & Ec)]];
        rewrite Ec in Ecol.
      - destruct (_bounce_off_paddle_ok cos sin lp true (bounce_jitter d) b3)
          as (c & Ecc & Hc & _).
        rewrite Ecol in Ecc. injection Ecc as <-. right; exact Hc.
      - destruct (_bounce_off_paddle_ok cos sin rp false (bounce_jitter d) b3)
          as (c & Ecc & Hc & _).
        rewrite Ecol in Ecc. injection Ecc as <-. right; exact Hc.
      - injection Ecol as <-. left; reflexivity. }
    unfold R.top, R.bottom in *. rewrite Hy, Hhh, Hww.
    split; [exact Hw3'|]. split; [rewrite Hh3; exact Hh2|].
    split; [exact Ht3|]. split; [exact Hb3|].
    split.
    { unfold BALL_SPEED, BALL_SPEED_MAX, BALL_SPEED_INCREMENT in *.
      destruct Hspeed as [-> | ->]; lia. }
    intro Hsd.
    destruct (score_signal_cases b') as [[_ H1] | [(_ & _ & H1) | (Hr' & Hl' & _)]];
      [rewrite H1 in Hsd; discriminate Hsd
      | rewrite H1 in Hsd; discriminate Hsd |].
    split; assumption.
Qed.

Lemma Ball_reset_ok (dir now : Z) (b : Ball) :
  rect_w (b_rect b) = BALL_SIZE -> rect_h (b_rect b) = BALL_SIZE ->
  ball_ok (Ball_reset dir now b).
Proof.
  intros Hw Hh. unfold ball_ok, Ball_reset, R.top, R.bottom, R.right, R.left.
  cbn. rewrite Hw, Hh. cbn. repeat split; (reflexivity || discriminate).
Qed.

Lemma win_banner_rect (b : Ball) (ls rs : Z) :
  b_rect (win_banner b ls rs) = b_rect b
  /\ b_speed (win_banner b ls rs) = b_speed b.
Proof. unfold win_banner. destruct (_ || _); split; reflexivity. Qed.

Lemma win_banner_ok (b : Ball) (ls rs : Z) :
  ball_ok b -> ball_ok (win_banner b ls rs).
Proof.
  unfold ball_ok. destruct (win_banner_rect b ls rs) as [-> ->]. tauto.
Qed.

Lemma frame_ball_ok (cos sin : Q -> Q) (s : Match) (i : FrameIn) :
  ball_ok (ball s) ->
  exists s', frame cos sin s i = Ok s' /\ ball_ok (ball s').
Proof.
  intro Hok.
  destruct (frame_score_cases cos sin s i)
    as (rp & b1 & sd & s' & _ & Eb & E & _ & _ & Hcases).
  exists s'. split; [exact E|].
  destruct (Ball_update_ball_ok cos sin (dt i)
              (Paddle_update_player (dt i) (key_w i) (key_s i)
                 (left_paddle s))
              rp (ticks_update i) (draws i) (ball s) Hok)
    as (b1' & sd' & Eb' & Hw & Hh & Ht & Hb & Hsp & Hx).
  rewrite Eb in Eb'. injection Eb' as <- <-.
  destruct Hcases as [(H0 & _ & _ & ->) | [(_ & _ & _ & ->) | (_ & _ & _ & ->)]].
  - apply win_banner_ok. destruct (Hx H0) as [Hr Hl].
    unfold ball_ok. tauto.
  - apply win_banner_ok, Ball_reset_ok; assumption.
  - apply win_banner_ok, Ball_reset_ok; assumption.
Qed.

(** X14.  The ball keeps the game's size, stays between the top and
    bottom walls, overlaps or touches the screen horizontally at the end
    of every frame (a ball that has left it is re-centred in the same
    frame), and its speed stays in [[BALL_SPEED, BALL_SPEED_MAX]]: every
    frame preserves this, so it holds in every state the match loop
    reaches from its initial state. *)
Theorem ball_invariant (cos sin : Q -> Q) :
  (forall s i,
      ball_ok (ball s) ->
      exists s', frame cos sin s i = Ok s' /\ ball_ok (ball s'))
  /\ (forall delay_l delay_r serve_dir now inputs,
         exists s',
           run cos sin (initial delay_l delay_r serve_dir now) inputs = Ok s'
           /\ ball_ok (ball s')).
Proof.
  split; [apply frame_ball_ok|].
  intros delay_l delay_r serve_dir now inputs.
  assert (Hgen : forall inputs s,
             ball_ok (ball s) ->
             exists s', run cos sin s inputs = Ok s' /\ ball_ok (ball s')).
  { clear inputs. induction inputs as [| i rest IH]; intros s Hs; cbn [run].
    - exists s. auto.
    - destruct (running s); [| exists s; auto].
      destruct (frame_ball_ok cos sin s i Hs) as (s1 & -> & Hs1).
      cbn [bind]. apply IH, Hs1. }
  apply Hgen. unfold ball_ok, initial, R.top, R.bottom, R.right, R.left.
  cbn. repeat split; (reflexivity || discriminate).
Qed.

Lemma ball_invariant_witness :
  ball_ok (ball match_won)
  /\ exists s',
      frame cos_taylor sin_taylor match_won frame_in0 = Ok s'
      /\ ball_ok (ball s').
Proof.
  assert (H : ball_ok (ball match_won)).
  { unfold ball_ok, R.top, R.bottom, R.right, R.left. cbn.
    repeat split; (reflexivity || discriminate). }
  split; [exact H|].
  destruct (ball_invariant cos_taylor sin_taylor) as [Hf _].
  apply Hf, H.
Defined.

(** ** Invariants of the match loop *)

Lemma frame_fields (cos sin : Q -> Q) (s : Match) (i : FrameIn) :
  exists s',
    frame cos sin s i = Ok s'
    /\ running s' = (if quit i then false else running s)
    /\ left_score s <= left_score s' /\ right_score s <= right_score s'
    /\ left_score s' + right_score s' <= left_score s + right_score s + 1
    /\ same_paddle_frame (left_paddle s) (left_paddle s')
    /\ same_paddle_frame (right_paddle s) (right_paddle s')
    /\ (won s' -> velocity_x (ball s') = 0%Q /\ velocity_y (ball s') = 0%Q).
Proof.
  destruct (frame_steps cos sin s i) as (rp & b1 & sd & Erp & Eb & Hsd & E).
  destruct (update_ai_shape (dt i) (ball s) (draws i) (right_paddle s))
    as (p1 & Erp' & Hr & Hsp & Hai & _).
  rewrite Erp in Erp'. injection Erp' as ->.
  eexists. split; [exact E|].
  assert (Hl : same_paddle_frame (left_paddle s)
                 (Paddle_update_player (dt i) (key_w i) (key_s i)
                                       (left_paddle s)))
    by (repeat split).
  assert (Hrp : same_paddle_frame (right_paddle s) (track (dt i) p1)).
  { destruct (track_fields (dt i) p1) as (_ & _ & _ & _ & H1 & H2 & H3 & H4 & H5).
    unfold same_paddle_frame. rewrite H1, H2, H3, H4, H5, Hr, Hsp, Hai.
    repeat split. }
  assert (Hwin : forall b ls rs,
             SCORE_TO_WIN <= ls \/ SCORE_TO_WIN <= rs ->
             velocity_x (win_banner b ls rs) = 0%Q
             /\ velocity_y (win_banner b ls rs) = 0%Q).
  { intros b ls rs H. unfold win_banner.
    assert (Ht : (SCORE_TO_WIN <=? ls) || (SCORE_TO_WIN <=? rs) = true).
    { apply orb_true_iff. destruct H as [H | H]; [left | right];
        apply Z.leb_le; exact H. }
    rewrite Ht. split; reflexivity. }
  unfold won.
  destruct Hsd as [-> | [-> | ->]]; cbn;
    (repeat split; try assumption; try lia; try apply Hwin; try apply Hl;
     try apply Hrp; assumption).
Qed.

Lemma same_paddle_frame_trans (p q r : Paddle) :
  same_paddle_frame p q -> same_paddle_frame q r -> same_paddle_frame p r.
Proof.
  unfold same_paddle_frame.
  intros (H1 & H2 & H3 & H4 & H5) (G1 & G2 & G3 & G4 & G5).
  repeat split; congruence.
Qed.

(** X15.  Scores never decrease, and a run of the loop over [n] frames
    raises the sum of the two scores by at most [n]: a frame awards at
    most one point. *)
Theorem scores_monotone (cos sin : Q -> Q) (inputs : list FrameIn)
        (s : Match) :
  exists s',
    run cos sin s inputs = Ok s'
    /\ left_score s <= left_score s' /\ right_score s <= right_score s'
    /\ left_score s' + right_score s'
       <= left_score s + right_score s + Z.of_nat (length inputs).
Proof.
  revert s. induction inputs as [| i rest IH]; intro s; cbn [run].
  - exists s. cbn. repeat split; lia.
  - destruct (running s).
    + destruct (frame_fields cos sin s i) as (s1 & -> & _ & Hl & Hr & Hsum & _).
      cbn [bind]. destruct (IH s1) as (s' & E & Hl' & Hr' & Hsum').
      exists s'. split; [exact E|]. cbn [length]. lia.
    + exists s. cbn [length]. repeat split; lia.
Qed.

(** X16.  Only the quit event ends the loop.  In the iteration in which
    it arrives the paddles and the ball are still updated, and no later
    input is read; without it a running loop goes on to the next
    iteration, whatever the scores are; a loop that is not running does
    nothing. *)
Theorem quit_ends_loop (cos sin : Q -> Q) (s : Match) (i : FrameIn)
        (rest : list FrameIn) :
  (running s = false -> run cos sin s (i :: rest) = Ok s)
  /\ (running s = true -> quit i = true ->
      run cos sin s (i :: rest) = frame cos sin s i
      /\ exists s', frame cos sin s i = Ok s' /\ running s' = false)
  /\ (running s = true -> quit i = false ->
      exists s', frame cos sin s i = Ok s' /\ running s' = true
                 /\ run cos sin s (i :: rest) = run cos sin s' rest).
Proof.
  destruct (frame_fields cos sin s i) as (s1 & E & Hrun & _).
  split; [| split].
  - intro H. cbn [run]. rewrite H. reflexivity.
  - intros H Hq. cbn [run]. rewrite H, E. cbn [bind].
    rewrite Hq in Hrun.
    split; [| exists s1; auto].
    destruct rest; cbn [run]; [reflexivity|]. rewrite Hrun. reflexivity.
  - intros H Hq. cbn [run]. rewrite H, E. cbn [bind].
    rewrite Hq, H in Hrun. exists s1. auto.
Qed.

Lemma quit_ends_loop_witness :
  exists s',
    run cos_taylor sin_taylor match_won [frame_in_quit; frame_in0; frame_in0]
      = Ok s'
    /\ running s' = false
    /\ frame cos_taylor sin_taylor match_won frame_in_quit = Ok s'.
Proof.
  destruct (quit_ends_loop cos_taylor sin_taylor match_won frame_in_quit
              [frame_in0; frame_in0]) as (_ & Hq & _).
  destruct (Hq eq_refl eq_refl) as (Erun & s' & E & Hr).
  exists s'. rewrite Erun. auto.
Defined.

(** X17.  A score that has reached [SCORE_TO_WIN] stays reached, and
    every frame that ends with a score at or above the threshold ends
    with the ball's velocity set to zero. *)
Theorem win_zeroes_velocity (cos sin : Q -> Q) (s : Match) (i : FrameIn) :
  exists s',
    frame cos sin s i = Ok s'
    /\ (won s -> won s')
    /\ (won s' -> velocity_x (ball s') = 0%Q /\ velocity_y (ball s') = 0%Q).
Proof.
  destruct (frame_fields cos sin s i)
    as (s' & E & _ & Hl & Hr & _ & _ & _ & Hwin).
  exists s'. split; [exact E|]. split; [| exact Hwin].
  unfold won. intros [H | H]; [left | right]; lia.
Qed.

Lemma win_zeroes_velocity_witness :
  won match_won
  /\ exists s',
      frame cos_taylor sin_taylor match_won frame_in0 = Ok s'
      /\ velocity_x (ball s') = 0%Q /\ velocity_y (ball s') = 0%Q.
Proof.
  assert (H : won match_won) by (left; discriminate).
  split; [exact H|].
  destruct (win_zeroes_velocity cos_taylor sin_taylor match_won frame_in0)
    as (s' & E & Hkeep & Hzero).
  exists s'. split; [exact E | apply Hzero, Hkeep, H].
Defined.

(** X18.  The paddles move only vertically: over any run of the loop the
    horizontal position, the size, the speed and the AI flag of each
    paddle stay those it started with. *)
Theorem paddles_move_vertically (cos sin : Q -> Q) (inputs : list FrameIn)
        (s : Match) :
  exists s',
    run cos sin s inputs = Ok s'
    /\ same_paddle_frame (left_paddle s) (left_paddle s')
    /\ same_paddle_frame (right_paddle s) (right_paddle s').
Proof.
  revert s. induction inputs as [| i rest IH]; intro s; cbn [run].
  - exists s. repeat split.
  - destruct (running s); [| exists s; repeat split].
    destruct (frame_fields cos sin s i)
      as (s1 & -> & _ & _ & _ & _ & Hl & Hr & _).
    cbn [bind]. destruct (IH s1) as (s' & E & Hl' & Hr').
    exists s'. split; [exact E|].
    split; eapply same_paddle_frame_trans; eassumption.
Qed.

(** X20.  For [lo < hi], [reflect_off_bounds] is symmetric about the
    lower bound: [y] and its mirror image [2 * lo - y] are folded to the
    same value. *)
Theorem reflect_off_bounds_even (y lo hi : Q) :
  (lo < hi)%Q ->
  exists r1 r2,
    reflect_off_bounds y lo hi = Ok r1
    /\ reflect_off_bounds (2 * lo - y)%Q lo hi = Ok r2
    /\ (r1 == r2)%Q.
Proof.
  intro Hlt. unfold reflect_off_bounds.
  assert (E : Qle_bool (hi - lo) 0 = false) by (apply Qle_bool_false; lra).
  rewrite E.
  destruct (py_mod_decompose (y - lo) (2 * (hi - lo)))
    as (t & n & Et & Hr & Hd); [lra|].
  rewrite Et. cbn [bind].
  destruct (Qeq_dec t 0) as [Hz | Hnz].
  - destruct (py_mod_unique (2 * lo - y - lo) (2 * (hi - lo)) (- n) 0)
      as (t' & Et' & Ht'); [lra | lra | rewrite inject_Z_opp; lra |].
    rewrite Et'. cbn [bind].
    eexists; eexists. split; [reflexivity|]. split; [reflexivity|].
    pose proof (fold_back_Qeq (hi - lo) t t') as Hf.
    rewrite Hf by lra. reflexivity.
  - destruct (py_mod_unique (2 * lo - y - lo) (2 * (hi - lo)) (- n - 1)
                (2 * (hi - lo) - t))
      as (t' & Et' & Ht'); [lra | lra | |].
    { unfold Zminus. rewrite inject_Z_plus, inject_Z_opp.
      change (inject_Z (- (1))) with (- (1))%Q. lra. }
    rewrite Et'. cbn [bind].
    eexists; eexists. split; [reflexivity|]. split; [reflexivity|].
    destruct (Qltb (hi - lo) t) eqn:E1;
      [apply Qltb_true in E1 | apply Qltb_false in E1];
      (destruct (Qltb (hi - lo) t') eqn:E2;
       [apply Qltb_true in E2 | apply Qltb_false in E2]); lra.
Qed.

Lemma reflect_off_bounds_even_witness :
  (7 < 593)%Q
  /\ exists r1 r2,
      reflect_off_bounds 100 7 593 = Ok r1
      /\ reflect_off_bounds (2 * 7 - 100)%Q 7 593 = Ok r2
      /\ (r1 == r2)%Q.
Proof.
  split; [reflexivity|].
  apply reflect_off_bounds_even. reflexivity.
Defined.

(** * The simulation within the machine limits *)

(** ** Checks that pass *)

Lemma rect_int_ok (v : Z) :
  INT_MIN <= v <= INT_MAX -> rect_int v = Ok v.
Proof.
  intros [Hlo Hhi]. unfold rect_int.
  apply Z.leb_le in Hlo. apply Z.leb_le in Hhi. rewrite Hlo, Hhi.
  reflexivity.
Qed.

Lemma rect_int_cases (v : Z) :
  rect_int v = Ok v \/ rect_int v = Raise TypeError.
Proof. unfold rect_int. destruct (_ && _); auto. Qed.

Lemma int_checked_cases (q : Q) :
  int_checked q = Ok (py_int q) \/ int_checked q = Raise OverflowError.
Proof. unfold int_checked. destruct (Qle_bool _ _); auto. Qed.

Lemma INT_MAX_finite : (inject_Z INT_MAX <= DBL_MAX)%Q.
Proof. vm_compute. discriminate. Qed.

Lemma finite_small (q : Q) :
  (- inject_Z INT_MAX <= q <= inject_Z INT_MAX)%Q ->
  Qle_bool (Qabs q) DBL_MAX = true.
Proof.
  intro H. apply Qle_bool_iff.
  apply Qle_trans with (inject_Z INT_MAX); [| exact INT_MAX_finite].
  apply Qabs_Qle_condition. exact H.
Qed.

Lemma int_checked_small (q : Q) :
  (- inject_Z INT_MAX <= q <= inject_Z INT_MAX)%Q ->
  int_checked q = Ok (py_int q).
Proof.
  intro H. unfold int_checked. rewrite finite_small by exact H. reflexivity.
Qed.

Lemma py_int_range (q : Q) (B : Z) :
  (- inject_Z B <= q <= inject_Z B)%Q -> - B <= py_int q <= B.
Proof.
  intros [Hlo Hhi].
  destruct (py_int_near q) as (_ & Hpos & Hneg).
  destruct (Qlt_le_dec q 0) as [Hn | Hp].
  - destruct Hneg as [H1 H2]; [lra|].
    assert (Ha : - B <= py_int q).
    { rewrite Zle_Qle, inject_Z_opp. lra. }
    assert (Hb : py_int q <= 0) by (rewrite Zle_Qle; exact H2).
    assert (H0 : 0 <= B).
    { rewrite Zle_Qle. change (inject_Z 0) with 0%Q. lra. }
    lia.
  - destruct (Hpos Hp) as [H1 H2].
    assert (Ha : py_int q <= B) by (rewrite Zle_Qle; lra).
    assert (Hb : 0 <= py_int q) by (rewrite Zle_Qle; exact H1).
    assert (H0 : 0 <= B).
    { rewrite Zle_Qle. change (inject_Z 0) with 0%Q. lra. }
    lia.
Qed.

(** The displacement of a bounded velocity over a bounded time. *)
Lemma displacement_bound (v V t T : Q) :
  (- V <= v <= V)%Q -> (0 <= t <= T)%Q ->
  (- (V * T) <= v * t <= V * T)%Q.
Proof.
  intros [Hlo Hhi] [Ht0 Ht1].
  assert (H1 : (0 <= t * (V - v))%Q) by (apply Qmult_le_0_compat; lra).
  assert (H2 : (0 <= t * (V + v))%Q) by (apply Qmult_le_0_compat; lra).
  assert (H3 : (0 <= (T - t) * V)%Q) by (apply Qmult_le_0_compat; lra).
  setoid_replace (t * (V - v))%Q with (V * t - v * t)%Q in H1 by ring.
  setoid_replace (t * (V + v))%Q with (V * t + v * t)%Q in H2 by ring.
  setoid_replace ((T - t) * V)%Q with (V * T - V * t)%Q in H3 by ring.
  split; lra.
Qed.

(** ** The checked operations refine the unchecked ones *)

Lemma refines_refl {A : Type} (u : result A) : refines u u.
Proof. left. reflexivity. Qed.

Lemma refines_raise {A : Type} (e : PyError) (u : result A) :
  e <> ZeroDivisionError -> refines (Raise e) u.
Proof. intro H. right. exists e. auto. Qed.

Lemma refines_bind {A B : Type} (c u : result A) (kc ku : A -> result B) :
  refines c u -> (forall a, refines (kc a) (ku a)) ->
  refines (bind c kc) (bind u ku).
Proof.
  intros [-> | (e & -> & He)] Hk.
  - destruct u as [a | e]; cbn [bind]; [apply Hk | apply refines_refl].
  - cbn [bind]. apply refines_raise, He.
Qed.

Lemma refines_Ok {A : Type} (c u : result A) (a : A) :
  refines c u -> c = Ok a -> u = Ok a.
Proof.
  intros [-> | (e & -> & _)] E; [exact E | discriminate E].
Qed.

Lemma refines_no_zero_division {A : Type} (c u : result A) :
  refines c u -> (exists a, u = Ok a) -> c <> Raise ZeroDivisionError.
Proof.
  intros [-> | (e & -> & He)] (a & Ea) E.
  - rewrite Ea in E. discriminate E.
  - injection E as ->. contradiction.
Qed.

Lemma rect_assign_refines (set : Z -> Rect -> Rect) (v : Z) (r : Rect) :
  refines (rect_assign set v r) (Ok (set v r)).
Proof.
  unfold rect_assign. destruct (rect_int_cases v) as [-> | ->]; cbn [bind].
  - apply refines_refl.
  - apply refines_raise. discriminate.
Qed.

Lemma int_checked_refines (q : Q) : refines (int_checked q) (Ok (py_int q)).
Proof.
  destruct (int_checked_cases q) as [-> | ->].
  - apply refines_refl.
  - apply refines_raise. discriminate.
Qed.

Lemma update_player_checked_refines (dt : Q) (up down : bool) (p : Paddle) :
  refines (Paddle_update_player_checked dt up down p)
          (Ok (Paddle_update_player dt up down p)).
Proof.
  unfold Paddle_update_player_checked.
  destruct (_ && negb _).
  - apply refines_raise. destruct (up && down); discriminate.
  - cbv zeta.
    apply (refines_bind _ (Ok _) _ (fun r => Ok (with_p_rect r p))).
    + apply rect_assign_refines.
    + intro r. apply refines_refl.
Qed.

Lemma track_checked_refines (dt : Q) (p : Paddle) :
  refines (track_checked dt p) (Ok (track dt p)).
Proof.
  unfold track_checked, track. cbv zeta.
  set (step := clamp _ _ _).
  apply (refines_bind _ (Ok (py_int (inject_Z (R.centery (p_rect p)) + step)))
           _ (fun c =>
                let r := R.set_centery c (p_rect p) in
                let r := R.set_top (Z.max 0 (R.top r)) r in
                let r := R.set_bottom (Z.min SCREEN_HEIGHT (R.bottom r)) r in
                Ok (with_p_rect r p))).
  - apply int_checked_refines.
  - intro c. cbv zeta.
    apply (refines_bind _ (Ok (R.set_centery c (p_rect p)))
             _ (fun r =>
                  let r := R.set_top (Z.max 0 (R.top r)) r in
                  let r := R.set_bottom (Z.min SCREEN_HEIGHT (R.bottom r)) r in
                  Ok (with_p_rect r p))).
    + apply rect_assign_refines.
    + intro r. cbv zeta.
      apply (refines_bind _ (Ok (R.set_top (Z.max 0 (R.top r)) r))
               _ (fun r =>
                    let r := R.set_bottom (Z.min SCREEN_HEIGHT (R.bottom r)) r in
                    Ok (with_p_rect r p))).
      * apply rect_assign_refines.
      * intro r'. cbv zeta.
        apply (refines_bind _ (Ok (R.set_bottom
                                     (Z.min SCREEN_HEIGHT (R.bottom r')) r'))
                 _ (fun r => Ok (with_p_rect r p))).
        -- apply rect_assign_refines.
        -- intro r''. apply refines_refl.
Qed.

Lemma update_ai_checked_refines (dt : Q) (b : Ball) (d : Draws)
      (p : Paddle) :
  refines (Paddle_update_ai_checked dt b d p) (Paddle_update_ai dt b d p).
Proof.
  unfold Paddle_update_ai_checked, Paddle_update_ai. cbv zeta.
  apply refines_bind; [apply refines_refl|].
  intro p1. apply track_checked_refines.
Qed.

Lemma move_checked_refines (dt : Q) (b : Ball) :
  refines (move_checked dt b) (Ok (move dt b)).
Proof.
  unfold move_checked, move. cbv zeta.
  apply (refines_bind _ (Ok (py_int (velocity_x b * dt)))
           _ (fun dx =>
                let r := R.set_x (rect_x (b_rect b) + dx) (b_rect b) in
                let r := R.set_y (rect_y r + py_int (velocity_y b * dt)) r in
                Ok (with_b_rect r b))).
  - apply int_checked_refines.
  - intro dx. cbv zeta.
    apply (refines_bind _ (Ok (R.set_x (rect_x (b_rect b) + dx) (b_rect b)))
             _ (fun r =>
                  let r := R.set_y (rect_y r + py_int (velocity_y b * dt)) r in
                  Ok (with_b_rect r b))).
    + apply rect_assign_refines.
    + intro r. cbv zeta.
      apply (refines_bind _ (Ok (py_int (velocity_y b * dt)))
               _ (fun dy => Ok (with_b_rect (R.set_y (rect_y r + dy) r) b))).
      * apply int_checked_refines.
      * intro dy.
        apply (refines_bind _ (Ok (R.set_y (rect_y r + dy) r))
                 _ (fun r => Ok (with_b_rect r b))).
        -- apply rect_assign_refines.
        -- intro r'. apply refines_refl.
Qed.

Lemma collide_walls_checked_eq (b : Ball) :
  collide_walls_checked b = Ok (collide_walls b).
Proof.
  unfold collide_walls_checked, collide_walls.
  repeat destruct (_ <=? _); reflexivity.
Qed.

Section CheckedRefines.

Variables cos sin : Q -> Q.

Lemma bounce_checked_refines (paddle : Paddle) (is_left : bool) (j : Q)
      (b : Ball) :
  refines (_bounce_off_paddle_checked cos sin paddle is_left j b)
          (_bounce_off_paddle cos sin paddle is_left j b).
Proof.
  unfold _bounce_off_paddle_checked.
  destruct (_bounce_off_paddle cos sin paddle is_left j b) as [b' | e];
    cbn [bind]; [| apply refines_refl].
  match goal with
  | |- context [rect_int ?v] => destruct (rect_int_cases v) as [-> | ->]
  end; cbn [bind].
  - apply refines_refl.
  - apply refines_raise. discriminate.
Qed.

Lemma collide_paddles_checked_refines (lp rp : Paddle) (j : Q) (b : Ball) :
  refines (collide_paddles_checked cos sin lp rp j b)
          (collide_paddles cos sin lp rp j b).
Proof.
  unfold collide_paddles_checked, collide_paddles.
  destruct (_ && _); [apply bounce_checked_refines|].
  destruct (_ && _); [apply bounce_checked_refines | apply refines_refl].
Qed.

Lemma Ball_update_checked_refines (dt : Q) (lp rp : Paddle) (now : Z)
      (d : Draws) (b : Ball) :
  refines (Ball_update_checked cos sin dt lp rp now d b)
          (Ball_update cos sin dt lp rp now d b).
Proof.
  unfold Ball_update_checked, Ball_update. cbv zeta.
  set (b1 := Ball_serve_if_ready cos sin now (serve_angle d) b).
  destruct (Qeq_bool (length_squared b1) 0); [apply refines_refl|].
  apply (refines_bind _ (Ok (move dt b1))
           _ (fun b2 =>
                b3 <- collide_paddles cos sin lp rp (bounce_jitter d)
                        (collide_walls b2) ;;
                Ok (b3, score_signal b3))).
  - apply move_checked_refines.
  - intro b2. rewrite collide_walls_checked_eq. cbn [bind].
    apply refines_bind; [apply collide_paddles_checked_refines|].
    intro b3. apply refines_refl.
Qed.

Lemma frame_checked_refines (s : Match) (i : FrameIn) :
  refines (frame_checked cos sin s i) (frame cos sin s i).
Proof.
  unfold frame_checked, frame. cbv zeta.
  apply (refines_bind _ (Ok (Paddle_update_player (dt i) (key_w i) (key_s i)
                                                  (left_paddle s)))
           _ (fun lp =>
                rp <- Paddle_update_ai (dt i) (ball s) (draws i)
                        (right_paddle s) ;;
                bs <- Ball_update cos sin (dt i) lp rp (ticks_update i)
                        (draws i) (ball s) ;;
                let '(b, ls, rs) :=
                  handle_score (snd bs) (ticks_reset i) (fst bs)
                               (left_score s) (right_score s) in
                Ok (mkMatch lp rp (win_banner b ls rs) ls rs
                            (if quit i then false else running s)))).
  - apply update_player_checked_refines.
  - intro lp. apply refines_bind; [apply update_ai_checked_refines|].
    intro rp. apply refines_bind; [apply Ball_update_checked_refines|].
    intro bs. apply refines_refl.
Qed.

Lemma run_checked_refines (inputs : list FrameIn) :
  forall s, refines (run_checked cos sin s inputs) (run cos sin s inputs).
Proof.
  induction inputs as [| i rest IH]; intro s; cbn [run_checked run].
  - apply refines_refl.
  - destruct (running s); [| apply refines_refl].
    apply refines_bind; [apply frame_checked_refines | exact IH].
Qed.

End CheckedRefines.

(** ** Within the limits every check passes *)

Lemma rect_int_ok' (v : Z) :
  -2147483648 <= v <= 2147483647 -> rect_int v = Ok v.
Proof. intro H. apply rect_int_ok. exact H. Qed.

Lemma int_checked_small' (q : Q) :
  (- (2147483647) <= q <= 2147483647)%Q -> int_checked q = Ok (py_int q).
Proof. intro H. apply int_checked_small. exact H. Qed.

(** What a paddle can travel in a frame of at most [DT_MAX]. *)
Lemma paddle_travel (sp : Z) (dt : Q) :
  0 <= sp <= PADDLE_SPEED -> (0 <= dt <= DT_MAX)%Q ->
  (0 <= inject_Z sp * dt <= 901943132)%Q.
Proof.
  intros [Hs0 Hs1] Hdt.
  assert (Hq : (- (420) <= inject_Z sp <= 420)%Q).
  { rewrite Zle_Qle in Hs0, Hs1. unfold PADDLE_SPEED in Hs1.
    change (inject_Z 0) with 0%Q in Hs0.
    change (inject_Z 420) with 420%Q in Hs1. lra. }
  destruct (displacement_bound (inject_Z sp) 420 dt DT_MAX Hq Hdt) as [_ Hhi].
  unfold DT_MAX in Hhi. split.
  - apply Qmult_le_0_compat; [| tauto].
    rewrite Zle_Qle in Hs0. exact Hs0.
  - assert (Hc : (420 * (2147483647 # 1000) <= 901943132)%Q)
      by (vm_compute; discriminate).
    lra.
Qed.

Lemma update_player_checked_ok (dt : Q) (up down : bool) (p : Paddle) :
  (0 <= dt <= DT_MAX)%Q -> 0 <= p_speed p <= PADDLE_SPEED ->
  Paddle_update_player_checked dt up down p
  = Ok (Paddle_update_player dt up down p).
Proof.
  intros Hdt Hs. unfold Paddle_update_player_checked.
  destruct (paddle_travel (p_speed p) dt Hs Hdt) as [Hd0 Hd1].
  rewrite finite_small
    by (change (inject_Z INT_MAX) with 2147483647%Q; lra).
  rewrite andb_false_r. cbv zeta. unfold rect_assign.
  rewrite rect_int_ok'.
  - reflexivity.
  - unfold PADDLE_HEIGHT, SCREEN_HEIGHT. change (100 / 2) with 50. lia.
Qed.

Lemma track_checked_ok (dt : Q) (p : Paddle) :
  (0 <= dt <= DT_MAX)%Q -> 0 <= p_speed p <= PADDLE_SPEED ->
  paddle_in_bounds p -> rect_h (p_rect p) = PADDLE_HEIGHT ->
  track_checked dt p = Ok (track dt p).
Proof.
  intros Hdt Hs Hin Hh.
  destruct (paddle_travel (p_speed p) dt Hs Hdt) as [Hd0 Hd1].
  unfold track_checked, track. cbv zeta.
  set (m := (inject_Z (p_speed p) * dt)%Q) in *.
  set (step := clamp _ (- m)%Q m).
  assert (Hstep : (- m <= step <= m)%Q) by (apply clamp_in_range; lra).
  unfold paddle_in_bounds in Hin.
  set (c := R.centery (p_rect p)) in *.
  unfold PADDLE_HEIGHT, SCREEN_HEIGHT in Hin.
  change (100 / 2) with 50 in Hin. change (600 - 50) with 550 in Hin.
  assert (Hc : (50 <= inject_Z c <= 550)%Q).
  { destruct Hin as [H1 H2]. rewrite Zle_Qle in H1, H2.
    change (inject_Z 50) with 50%Q in H1.
    change (inject_Z 550) with 550%Q in H2. lra. }
  rewrite int_checked_small' by lra. cbn [bind].
  set (c1 := py_int (inject_Z c + step)).
  assert (Hc1 : - 1000000000 <= c1 <= 1000000000).
  { apply (py_int_range _ 1000000000).
    change (inject_Z 1000000000) with 1000000000%Q. lra. }
  unfold rect_assign.
  rewrite (rect_int_ok' c1) by lia. cbn [bind].
  destruct (p_rect p) as [x y w h] eqn:Er. cbn [rect_h] in Hh. subst h.
  unfold R.top, R.bottom, R.set_centery, R.set_top, R.set_bottom, R.set_y.
  cbn [rect_x rect_y rect_w rect_h].
  unfold PADDLE_HEIGHT, SCREEN_HEIGHT. change (100 / 2) with 50.
  rewrite (rect_int_ok' (Z.max 0 (c1 - 50))) by lia. cbn [bind].
  cbn [rect_x rect_y rect_w rect_h].
  rewrite (rect_int_ok' (Z.min 600 (Z.max 0 (c1 - 50) + 100))) by lia.
  cbn [bind]. reflexivity.
Qed.

Lemma update_ai_checked_ok (dt : Q) (b : Ball) (d : Draws) (p : Paddle) :
  (0 <= dt <= DT_MAX)%Q -> 0 <= p_speed p <= PADDLE_SPEED ->
  paddle_in_bounds p -> rect_h (p_rect p) = PADDLE_HEIGHT ->
  Paddle_update_ai_checked dt b d p = Paddle_update_ai dt b d p.
Proof.
  intros Hdt Hs Hin Hh.
  unfold Paddle_update_ai_checked, Paddle_update_ai. cbv zeta.
  destruct (Qle_bool _ _).
  - destruct (retarget p b d) as [a | e]; cbn [bind]; [| reflexivity].
    apply track_checked_ok; assumption.
  - cbn [bind]. apply track_checked_ok; assumption.
Qed.

Lemma move_checked_ok (dt : Q) (b : Ball) :
  (0 <= dt <= DT_MAX)%Q -> ball_ok b -> vel_ok b ->
  move_checked dt b = Ok (move dt b).
Proof.
  intros Hdt (Hw & Hh & Ht & Hb & Hr & Hl & _) [Hvx Hvy].
  unfold R.top, R.bottom, R.right, R.left in *.
  unfold BALL_SIZE, SCREEN_HEIGHT, SCREEN_WIDTH in *.
  unfold BALL_SPEED_MAX in Hvx, Hvy.
  change (inject_Z 680) with 680%Q in Hvx.
  change (inject_Z (680 + 8)) with 688%Q in Hvy.
  destruct (displacement_bound _ 680 dt DT_MAX Hvx Hdt) as [Hx0 Hx1].
  destruct (displacement_bound _ 688 dt DT_MAX Hvy Hdt) as [Hy0 Hy1].
  unfold DT_MAX in Hx0, Hx1, Hy0, Hy1.
  assert (Hcx : (680 * (2147483647 # 1000) <= 1460289080)%Q)
    by (vm_compute; discriminate).
  assert (Hcy : (688 * (2147483647 # 1000) <= 1477468750)%Q)
    by (vm_compute; discriminate).
  unfold move_checked, move. cbv zeta.
  rewrite (int_checked_small' (velocity_x b * dt)) by lra. cbn [bind].
  assert (Hdx : - 1460289080 <= py_int (velocity_x b * dt) <= 1460289080).
  { apply (py_int_range _ 1460289080).
    change (inject_Z 1460289080) with 1460289080%Q. lra. }
  unfold rect_assign.
  rewrite (rect_int_ok' (rect_x (b_rect b) + py_int (velocity_x b * dt)))
    by lia.
  cbn [bind].
  rewrite (int_checked_small' (velocity_y b * dt)) by lra. cbn [bind].
  assert (Hdy : - 1477468750 <= py_int (velocity_y b * dt) <= 1477468750).
  { apply (py_int_range _ 1477468750).
    change (inject_Z 1477468750) with 1477468750%Q. lra. }
  cbn [R.set_x rect_y].
  rewrite (rect_int_ok' (rect_y (b_rect b) + py_int (velocity_y b * dt)))
    by lia.
  reflexivity.
Qed.

Lemma bounce_checked_ok (cos sin : Q -> Q) (paddle : Paddle)
      (is_left : bool) (j : Q) (b : Ball) :
  paddle_frame_ok paddle ->
  _bounce_off_paddle_checked cos sin paddle is_left j b
  = _bounce_off_paddle cos sin paddle is_left j b.
Proof.
  intros (Hx & Hw & _). unfold _bounce_off_paddle_checked.
  destruct (_bounce_off_paddle cos sin paddle is_left j b) as [b' | e];
    cbn [bind]; [| reflexivity].
  rewrite rect_int_ok'; [reflexivity|].
  unfold R.right, R.left, SCREEN_WIDTH, PADDLE_WIDTH in *.
  destruct is_left; lia.
Qed.

Lemma collide_paddles_checked_ok (cos sin : Q -> Q) (lp rp : Paddle)
      (j : Q) (b : Ball) :
  paddle_frame_ok lp -> paddle_frame_ok rp ->
  collide_paddles_checked cos sin lp rp j b
  = collide_paddles cos sin lp rp j b.
Proof.
  intros Hl Hr. unfold collide_paddles_checked, collide_paddles.
  destruct (_ && _); [apply bounce_checked_ok, Hl|].
  destruct (_ && _); [apply bounce_checked_ok, Hr | reflexivity].
Qed.

(** ** The velocity of the ball *)

Lemma vel_ok_zero (b : Ball) (vx vy : Q) :
  (vx == 0)%Q -> (vy == 0)%Q -> vel_ok (with_velocity vx vy b).
Proof.
  intros Hx Hy. unfold vel_ok. cbn [with_velocity velocity_x velocity_y].
  rewrite Hx, Hy. split; split; discriminate.
Qed.

Lemma serve_vel_ok (cos sin : Q -> Q) (now : Z) (angle : Q) (b : Ball) :
  trig_bounded cos sin ->
  BALL_SPEED <= b_speed b <= BALL_SPEED_MAX ->
  vel_ok b -> vel_ok (Ball_serve_if_ready cos sin now angle b).
Proof.
  intros Htrig [Hs0 Hs1] Hv. unfold Ball_serve_if_ready.
  destruct (_ && _); [| exact Hv].
  destruct (Htrig angle) as [Hc Hsn].
  unfold vel_ok. cbn [with_velocity velocity_x velocity_y].
  unfold BALL_SPEED, BALL_SPEED_MAX in *.
  assert (Hsp : (0 <= inject_Z (b_speed b) <= 680)%Q).
  { rewrite Zle_Qle in Hs0, Hs1.
    change (inject_Z 360) with 360%Q in Hs0.
    change (inject_Z 680) with 680%Q in Hs1. lra. }
  change (inject_Z 680) with 680%Q. change (inject_Z (680 + 8)) with 688%Q.
  set (sp := inject_Z (b_speed b)) in *.
  destruct (scale_bound sp (cos angle)) as [Hx1 Hx2]; [lra | exact Hc |].
  destruct (scale_bound sp (sin angle)) as [Hy1 Hy2]; [lra | exact Hsn |].
  assert (Habs : (0 <= Qabs (sp * cos angle) <= sp)%Q).
  { split; [apply Qabs_nonneg|]. apply Qabs_Qle_condition. split; lra. }
  unfold copysign. destruct (_serve_dir b <? 0); split; split; lra.
Qed.

Lemma bounce_vel_ok (cos sin : Q -> Q) (p : Paddle) (is_left : bool)
      (j : Q) (b : Ball) :
  trig_bounded cos sin -> 0 <= b_speed b -> (- (8) <= j <= 8)%Q ->
  exists b', _bounce_off_paddle cos sin p is_left j b = Ok b' /\ vel_ok b'.
Proof.
  intros Htrig Hs Hj. unfold _bounce_off_paddle.
  change (py_truediv (inject_Z PADDLE_HEIGHT) 2) with (Ok (100 # 2)%Q).
  cbn [bind]. rewrite py_truediv_total by (intro H; discriminate H).
  cbn [bind]. eexists; split; [reflexivity|].
  set (angle := (clamp _ (- (1)) 1 * (9 # 10))%Q).
  destruct (Htrig angle) as [Hc Hsn].
  set (speed := Z.min BALL_SPEED_MAX (b_speed b + BALL_SPEED_INCREMENT)).
  assert (Hsp : (0 <= inject_Z speed <= 680)%Q).
  { assert (H : 0 <= speed <= 680)
      by (unfold speed, BALL_SPEED_MAX, BALL_SPEED_INCREMENT; lia).
    destruct H as [H0 H1]. rewrite Zle_Qle in H0, H1.
    change (inject_Z 0) with 0%Q in H0.
    change (inject_Z 680) with 680%Q in H1. lra. }
  destruct (scale_bound (inject_Z speed) (cos angle)) as [Hx1 Hx2];
    [lra | exact Hc |].
  destruct (scale_bound (inject_Z speed) (sin angle)) as [Hy1 Hy2];
    [lra | exact Hsn |].
  unfold vel_ok. cbn [velocity_x velocity_y]. unfold BALL_SPEED_MAX.
  change (inject_Z 680) with 680%Q. change (inject_Z (680 + 8)) with 688%Q.
  split.
  - destruct is_left; cbn [negb].
    + setoid_replace (inject_Z (-1) * inject_Z speed * cos angle)%Q
        with (- (inject_Z speed * cos angle))%Q
        by (change (inject_Z (-1)) with (- (1))%Q; ring).
      split; lra.
    + setoid_replace (inject_Z 1 * inject_Z speed * cos angle)%Q
        with (inject_Z speed * cos angle)%Q
        by (change (inject_Z 1) with 1%Q; ring).
      split; lra.
  - split; lra.
Qed.

Lemma collide_walls_vel_ok (b : Ball) : vel_ok b -> vel_ok (collide_walls b).
Proof.
  intros [Hx Hy]. unfold collide_walls, vel_ok.
  repeat destruct (_ <=? _);
    cbn [with_velocity with_b_rect velocity_x velocity_y];
    split; try exact Hx; try exact Hy; split; lra.
Qed.

Lemma Ball_update_vel_ok (cos sin : Q -> Q) (dt : Q) (lp rp : Paddle)
      (now : Z) (d : Draws) (b : Ball) :
  trig_bounded cos sin -> ball_ok b -> vel_ok b ->
  (- (8) <= bounce_jitter d <= 8)%Q ->
  exists b' sd,
    Ball_update cos sin dt lp rp now d b = Ok (b', sd) /\ vel_ok b'.
Proof.
  intros Htrig Hok Hv Hj.
  assert (Hsp : BALL_SPEED <= b_speed b <= BALL_SPEED_MAX)
    by (unfold ball_ok in Hok; tauto).
  set (b1 := Ball_serve_if_ready cos sin now (serve_angle d) b).
  assert (Hv1 : vel_ok b1) by (apply serve_vel_ok; assumption).
  assert (Hs1 : b_speed b1 = b_speed b).
  { unfold b1, Ball_serve_if_ready. destruct (_ && _); reflexivity. }
  destruct (Qeq_bool (length_squared b1) 0) eqn:E.
  - exists b1, 0. rewrite (Ball_update_waiting cos sin dt lp rp now d b E).
    auto.
  - destruct (Ball_update_in_flight cos sin dt lp rp now d b E)
      as (b' & Ecol & Eupd).
    exists b', (score_signal b'). split; [exact Eupd|].
    fold b1 in Ecol. set (b3 := collide_walls (move dt b1)) in *.
    assert (Hv3 : vel_ok b3) by (apply collide_walls_vel_ok; exact Hv1).
    assert (Hs3 : 0 <= b_speed b3).
    { destruct (collide_walls_inside (move dt b1)) as (_ & _ & _ & Hs).
      - cbn. unfold b1, Ball_serve_if_ready.
        destruct (_ && _); cbn; unfold ball_ok in Hok; tauto.
      - fold b3 in Hs. rewrite Hs. cbn. rewrite Hs1.
        unfold BALL_SPEED in Hsp. lia. }
    destruct (collide_paddles_cases cos sin lp rp (bounce_jitter d) b3)
      as [(_ & Ec) | [(_ & _ & Ec) | (_ & _ & Ec)]];
      rewrite Ec in Ecol.
    + destruct (bounce_vel_ok cos sin lp true (bounce_jitter d) b3
                  Htrig Hs3 Hj) as (c & Ecc & Hc).
      rewrite Ecol in Ecc. injection Ecc as <-. exact Hc.
    + destruct (bounce_vel_ok cos sin rp false (bounce_jitter d) b3
                  Htrig Hs3 Hj) as (c & Ecc & Hc).
      rewrite Ecol in Ecc. injection Ecc as <-. exact Hc.
    + injection Ecol as <-. exact Hv3.
Qed.

Lemma win_banner_vel_ok (b : Ball) (ls rs : Z) :
  vel_ok b -> vel_ok (win_banner b ls rs).
Proof.
  intro H. unfold win_banner. destruct (_ || _); [| exact H].
  apply vel_ok_zero; reflexivity.
Qed.

Lemma Ball_reset_vel_ok (dir now : Z) (b : Ball) :
  vel_ok (Ball_reset dir now b).
Proof. unfold vel_ok, Ball_reset. cbn. split; split; discriminate. Qed.

Lemma frame_vel_ok (cos sin : Q -> Q) (s : Match) (i : FrameIn) :
  trig_bounded cos sin -> ball_ok (ball s) -> vel_ok (ball s) ->
  jitter_in_range i ->
  exists s', frame cos sin s i = Ok s' /\ vel_ok (ball s').
Proof.
  intros Htrig Hok Hv Hj.
  destruct (frame_score_cases cos sin s i)
    as (rp & b1 & sd & s' & _ & Eb & E & _ & _ & Hcases).
  exists s'. split; [exact E|].
  destruct (Ball_update_vel_ok cos sin (dt i)
              (Paddle_update_player (dt i) (key_w i) (key_s i)
                 (left_paddle s))
              rp (ticks_update i) (draws i) (ball s) Htrig Hok Hv Hj)
    as (b1' & sd' & Eb' & Hv1).
  rewrite Eb in Eb'. injection Eb' as <- <-.
  destruct Hcases as [(_ & _ & _ & ->) | [(_ & _ & _ & ->) | (_ & _ & _ & ->)]];
    apply win_banner_vel_ok; [exact Hv1 | |]; apply Ball_reset_vel_ok.
Qed.

Lemma run_ball_vel_ok (cos sin : Q -> Q) (inputs : list FrameIn) :
  trig_bounded cos sin -> Forall jitter_in_range inputs ->
  forall s, ball_ok (ball s) -> vel_ok (ball s) ->
            exists s', run cos sin s inputs = Ok s'
                       /\ ball_ok (ball s') /\ vel_ok (ball s').
Proof.
  intros Htrig Hall. induction Hall as [| i rest Hi _ IH];
    intros s Hok Hv; cbn [run].
  - exists s. auto.
  - destruct (running s); [| exists s; auto].
    destruct (frame_ball_ok cos sin s i Hok) as (s1 & E1 & Hok1).
    destruct (frame_vel_ok cos sin s i Htrig Hok Hv Hi) as (s2 & E2 & Hv2).
    rewrite E1 in E2. injection E2 as <-.
    rewrite E1. cbn [bind]. apply IH; assumption.
Qed.

Lemma initial_ball_ok (delay_l delay_r : Q) (serve_dir now : Z) :
  ball_ok (ball (initial delay_l delay_r serve_dir now))
  /\ vel_ok (ball (initial delay_l delay_r serve_dir now)).
Proof.
  split.
  - unfold ball_ok, initial, R.top, R.bottom, R.right, R.left.
    cbn. repeat split; (reflexivity || discriminate).
  - unfold vel_ok. cbn. split; split; discriminate.
Qed.

Lemma sat_trig_bounded : trig_bounded cos_sat sin_sat.
Proof.
  intro a. unfold cos_sat, sin_sat.
  split; apply clamp_in_range; discriminate.
Qed.

(** X19.  When [math.cos] and [math.sin] take their values in
    [[-1, 1]] and every jitter draw is in [[-8, 8]], the velocity of the
    ball stays bounded: [|velocity.x| <= BALL_SPEED_MAX] and
    [|velocity.y| <= BALL_SPEED_MAX + 8] after every frame, so in every
    state the match loop reaches from its initial state. *)
Theorem ball_velocity_bounded (cos sin : Q -> Q) :
  trig_bounded cos sin ->
  (forall s i,
      ball_ok (ball s) -> vel_ok (ball s) -> jitter_in_range i ->
      exists s', frame cos sin s i = Ok s' /\ vel_ok (ball s'))
  /\ (forall delay_l delay_r serve_dir now inputs,
         Forall jitter_in_range inputs ->
         exists s',
           run cos sin (initial delay_l delay_r serve_dir now) inputs = Ok s'
           /\ vel_ok (ball s')).
Proof.
  intro Htrig. split.
  - intros s i. apply frame_vel_ok, Htrig.
  - intros delay_l delay_r serve_dir now inputs Hall.
    destruct (initial_ball_ok delay_l delay_r serve_dir now) as [Hok Hv].
    destruct (run_ball_vel_ok cos sin inputs Htrig Hall _ Hok Hv)
      as (s' & E & _ & Hv').
    exists s'. auto.
Qed.

Lemma ball_velocity_bounded_witness :
  trig_bounded cos_sat sin_sat
  /\ Forall jitter_in_range [frame_in0; frame_in0]
  /\ exists s',
      run cos_sat sin_sat (initial 100 100 1 0) [frame_in0; frame_in0]
        = Ok s'
      /\ vel_ok (ball s').
Proof.
  assert (Hall : Forall jitter_in_range [frame_in0; frame_in0]).
  { repeat constructor; discriminate. }
  split; [exact sat_trig_bounded|]. split; [exact Hall|].
  destruct (ball_velocity_bounded cos_sat sin_sat sat_trig_bounded)
    as [_ Hrun].
  apply Hrun, Hall.
Defined.

(** ** Frames within the limits *)

Lemma serve_ball_ok (cos sin : Q -> Q) (now : Z) (angle : Q) (b : Ball) :
  ball_ok b -> ball_ok (Ball_serve_if_ready cos sin now angle b).
Proof.
  intro H. unfold Ball_serve_if_ready. destruct (_ && _); exact H.
Qed.

Lemma Ball_update_checked_ok (cos sin : Q -> Q) (dt : Q) (lp rp : Paddle)
      (now : Z) (d : Draws) (b : Ball) :
  trig_bounded cos sin -> (0 <= dt <= DT_MAX)%Q ->
  ball_ok b -> vel_ok b -> paddle_frame_ok lp -> paddle_frame_ok rp ->
  Ball_update_checked cos sin dt lp rp now d b
  = Ball_update cos sin dt lp rp now d b.
Proof.
  intros Htrig Hdt Hok Hv Hl Hr.
  unfold Ball_update_checked, Ball_update. cbv zeta.
  set (b1 := Ball_serve_if_ready cos sin now (serve_angle d) b).
  assert (Hok1 : ball_ok b1) by (apply serve_ball_ok, Hok).
  assert (Hv1 : vel_ok b1).
  { apply serve_vel_ok; [exact Htrig | unfold ball_ok in Hok; tauto
                         | exact Hv]. }
  destruct (Qeq_bool (length_squared b1) 0); [reflexivity|].
  rewrite move_checked_ok by assumption. cbn [bind].
  rewrite collide_walls_checked_eq. cbn [bind].
  rewrite collide_paddles_checked_ok by assumption. reflexivity.
Qed.

Lemma same_frame_ok (p q : Paddle) :
  same_paddle_frame p q -> paddle_frame_ok p -> paddle_frame_ok q.
Proof.
  unfold same_paddle_frame, paddle_frame_ok.
  intros (H1 & H2 & _ & H4 & _) H. rewrite <- H1, <- H2, <- H4. exact H.
Qed.

Lemma update_ai_frame_ok (dt : Q) (b : Ball) (d : Draws) (p p' : Paddle) :
  Paddle_update_ai dt b d p = Ok p' ->
  paddle_frame_ok p -> paddle_frame_ok p'.
Proof.
  intros E H.
  destruct (update_ai_shape dt b d p) as (p1 & E1 & Hr & Hsp & _).
  rewrite E in E1. injection E1 as ->.
  destruct (track_fields dt p1) as (_ & _ & _ & _ & H1 & _ & H3 & H4 & _).
  unfold paddle_frame_ok in *. rewrite H1, H3, H4, Hr, Hsp. exact H.
Qed.

Lemma frame_checked_eq (cos sin : Q -> Q) (s : Match) (i : FrameIn) :
  trig_bounded cos sin -> sim_ok s -> frame_in_range i ->
  frame_checked cos sin s i = frame cos sin s i.
Proof.
  intros Htrig ((Hlh & Hrh & Hlin & Hrin) & Hlf & Hrf & Hok & Hv) [Hdt Hj].
  unfold frame_checked, frame. cbv zeta.
  rewrite update_player_checked_ok
    by (try exact Hdt; unfold paddle_frame_ok in Hlf; tauto).
  cbn [bind].
  rewrite update_ai_checked_ok
    by (try assumption; unfold paddle_frame_ok in Hrf; tauto).
  destruct (Paddle_update_ai (dt i) (ball s) (draws i) (right_paddle s))
    as [rp | e] eqn:Erp; cbn [bind]; [| reflexivity].
  rewrite Ball_update_checked_ok; try assumption.
  - reflexivity.
  - eapply update_ai_frame_ok; eassumption.
Qed.

Lemma frame_sim_ok (cos sin : Q -> Q) (s : Match) (i : FrameIn) :
  trig_bounded cos sin -> sim_ok s -> jitter_in_range i ->
  exists s', frame cos sin s i = Ok s' /\ sim_ok s'.
Proof.
  intros Htrig ((Hlh & Hrh & Hlin & Hrin) & Hlf & Hrf & Hok & Hv) Hj.
  destruct (frame_paddles_ok cos sin s i Hlh Hrh) as (s' & E & Hp).
  destruct (frame_ball_ok cos sin s i Hok) as (s1 & E1 & Hb).
  destruct (frame_vel_ok cos sin s i Htrig Hok Hv Hj) as (s2 & E2 & Hv').
  destruct (frame_fields cos sin s i)
    as (s3 & E3 & _ & _ & _ & _ & Hsl & Hsr & _).
  rewrite E in E1, E2, E3.
  injection E1 as <-. injection E2 as <-. injection E3 as <-.
  exists s'. split; [exact E|].
  unfold sim_ok. split; [exact Hp|].
  split; [apply (same_frame_ok _ _ Hsl Hlf)|].
  split; [apply (same_frame_ok _ _ Hsr Hrf)|].
  split; assumption.
Qed.

Lemma frame_checked_sim_ok (cos sin : Q -> Q) (s : Match) (i : FrameIn) :
  trig_bounded cos sin -> sim_ok s -> frame_in_range i ->
  exists s', frame_checked cos sin s i = Ok s' /\ sim_ok s'.
Proof.
  intros Htrig Hs Hi.
  rewrite frame_checked_eq by assumption.
  apply frame_sim_ok; [exact Htrig | exact Hs | apply Hi].
Qed.

Lemma run_checked_sim_ok (cos sin : Q -> Q) (inputs : list FrameIn) :
  trig_bounded cos sin -> Forall frame_in_range inputs ->
  forall s, sim_ok s ->
            exists s', run_checked cos sin s inputs = Ok s' /\ sim_ok s'.
Proof.
  intros Htrig Hall. induction Hall as [| i rest Hi _ IH];
    intros s Hs; cbn [run_checked].
  - exists s. auto.
  - destruct (running s); [| exists s; auto].
    destruct (frame_checked_sim_ok cos sin s i Htrig Hs Hi)
      as (s1 & -> & Hs1).
    cbn [bind]. apply IH, Hs1.
Qed.

Lemma initial_sim_ok (delay_l delay_r : Q) (serve_dir now : Z) :
  sim_ok (initial delay_l delay_r serve_dir now).
Proof.
  destruct (initial_ball_ok delay_l delay_r serve_dir now) as [Hb Hv].
  unfold sim_ok. split; [apply initial_paddles_ok|].
  split; [| split; [| split; assumption]];
    unfold paddle_frame_ok; cbn; repeat split; discriminate.
Qed.

(** C9 (as amended).  With [math.cos] and [math.sin] in [[-1, 1]], every
    frame whose time is between 0 and [DT_MAX] (2147483.647 s) and whose
    jitter draw is in [[-8, 8]], taken in a state the game can be in,
    runs all its operations ([update_player], [update_ai],
    [serve_if_ready], [update] with the bounce handling, [reset]) without
    raising and ends in such a state again; so does every run of such
    frames from the initial state.  For every [dt] and every state no
    operation raises [ZeroDivisionError]: [reflect_off_bounds] always
    returns, and the division that computes [time_to_reach] is performed
    only with a strictly positive divisor, the re-aiming taking the
    branch without it when the horizontal velocity is not positive. *)
Theorem simulation_defined_within_limits (cos sin : Q -> Q) :
  trig_bounded cos sin ->
  (forall s i,
      sim_ok s -> frame_in_range i ->
      exists s', frame_checked cos sin s i = Ok s' /\ sim_ok s')
  /\ (forall delay_l delay_r serve_dir now inputs,
         Forall frame_in_range inputs ->
         exists s',
           run_checked cos sin (initial delay_l delay_r serve_dir now) inputs
           = Ok s'
           /\ sim_ok s')
  /\ (forall s i, frame_checked cos sin s i <> Raise ZeroDivisionError)
  /\ (forall inputs s,
         run_checked cos sin s inputs <> Raise ZeroDivisionError)
  /\ (forall dt b d p,
         Paddle_update_ai_checked dt b d p <> Raise ZeroDivisionError)
  /\ (forall dt lp rp now d b,
         Ball_update_checked cos sin dt lp rp now d b
         <> Raise ZeroDivisionError)
  /\ (forall y lo hi, exists r, reflect_off_bounds y lo hi = Ok r)
  /\ (forall p b,
         (0 < velocity_x b)%Q ->
         time_to_reach p b
         = Ok (inject_Z (R.left (p_rect p) - R.right (b_rect b))
               / velocity_x b)%Q)
  /\ (forall p b d,
         (velocity_x b <= 0)%Q ->
         retarget p b d
         = Ok ((_rand_aim_error d * (3 # 10))%Q,
               (inject_Z SCREEN_HEIGHT / 2
                + _rand_aim_error d * (3 # 10))%Q))
  /\ (forall a b, (b == 0)%Q -> py_truediv a b = Raise ZeroDivisionError).
Proof.
  intro Htrig.
  split; [intros s i; apply frame_checked_sim_ok, Htrig|].
  split.
  { intros delay_l delay_r serve_dir now inputs Hall.
    apply run_checked_sim_ok; [exact Htrig | exact Hall|].
    apply initial_sim_ok. }
  split.
  { intros s i. eapply refines_no_zero_division.
    - apply frame_checked_refines.
    - apply frame_total. }
  split.
  { intros inputs s. eapply refines_no_zero_division.
    - apply run_checked_refines.
    - apply run_total. }
  split.
  { intros dt b d p. eapply refines_no_zero_division.
    - apply update_ai_checked_refines.
    - destruct (update_ai_ok dt b d p) as (p' & E & _). exists p'. exact E. }
  split.
  { intros dt lp rp now d b. eapply refines_no_zero_division.
    - apply Ball_update_checked_refines.
    - destruct (Ball_update_total cos sin dt lp rp now d b)
        as (b' & sd & E & _).
      exists (b', sd). exact E. }
  split; [exact reflect_off_bounds_total|].
  split.
  { intros p b Hpos.
    assert (Hnz : ~ (velocity_x b == 0)%Q) by lra.
    unfold time_to_reach. apply Qeq_bool_false in Hnz as Hz. rewrite Hz.
    cbn [negb]. apply py_truediv_total, Hnz. }
  split.
  { intros p b d Hle. unfold retarget. apply Qltb_false in Hle.
    rewrite Hle. rewrite py_truediv_total by (intro H; discriminate H).
    reflexivity. }
  exact py_truediv_zero.
Qed.

Lemma simulation_defined_within_limits_witness :
  trig_bounded cos_sat sin_sat
  /\ sim_ok match_start /\ frame_in_range frame_in0
  /\ exists s',
      frame_checked cos_sat sin_sat match_start frame_in0 = Ok s'
      /\ sim_ok s'.
Proof.
  assert (Hs : sim_ok match_start) by apply initial_sim_ok.
  assert (Hi : frame_in_range frame_in0)
    by (split; split; discriminate).
  split; [exact sat_trig_bounded|]. split; [exact Hs|]. split; [exact Hi|].
  destruct (simulation_defined_within_limits cos_sat sin_sat
              sat_trig_bounded) as [Hframe _].
  apply Hframe; assumption.
Defined.

(** The frame of ten million seconds at the first serve: the served ball
    would move 3 600 000 000 pixels, and the assignment to [rect.x]
    raises. *)
Example long_frame_raises :
  frame_checked cos_sat sin_sat match_start frame_in_long = Raise TypeError.
Proof. vm_compute. reflexivity. Qed.

(** C9 as stated fails: in the initial state, which the loop reaches,
    with [dt = 10000000 >= 0] [Ball.update] raises [TypeError]. *)
Lemma simulation_fails_for_long_frame :
  ~ (forall (cos sin : Q -> Q) (s : Match) (i : FrameIn),
        trig_bounded cos sin -> sim_ok s ->
        (0 <= dt i)%Q -> jitter_in_range i ->
        exists s', frame_checked cos sin s i = Ok s').
Proof.
  intro H.
  destruct (H cos_sat sin_sat match_start frame_in_long)
    as (s' & E).
  - exact sat_trig_bounded.
  - apply initial_sim_ok.
  - discriminate.
  - split; discriminate.
  - assert (E' : frame_checked cos_sat sin_sat match_start frame_in_long
                 = Raise TypeError) by (vm_compute; reflexivity).
    rewrite E' in E. discriminate E.
Qed.
